(** * Mars adaptive habitat solver ([growth_solver.py])

    A shallow embedding of [run_simulation] and the properties its
    specification states about it.

    Numbers.  Python [float] and the [double] of Rhino.Geometry are read as
    real numbers: rounding, overflow and NaN are outside this model.  Python
    [int] is [Z].

    External code.  [Rhino.Geometry] (points, vectors, the mesh queries),
    [math] and [random] are libraries the solver calls.  Points and vectors
    are modelled by their documented arithmetic; the terrain mesh and the
    pseudo-random source are inputs of the run. *)

From Stdlib Require Import Reals Lra Lia ZArith List Bool Sorted.
Import ListNotations.

Open Scope R_scope.

(** ** Comparisons of floats, as the [if] statements of the source use them *)

Definition gtb (x y : R) : bool := if Rgt_dec x y then true else false.
Definition ltb (x y : R) : bool := if Rlt_dec x y then true else false.

(** ** [math] *)

Definition radians (x : R) : R := x * (PI / 180).
Definition degrees (x : R) : R := x * (180 / PI).

(** ** [Rhino.Geometry.Vector3d] *)

Module Vector3d.

Record t : Type := mk { X : R; Y : R; Z : R }.

Definition ZAxis : t := mk 0 0 1.

Definition Length (v : t) : R :=
  sqrt (X v * X v + Y v * Y v + Z v * Z v).

(** [vec *= k] *)
Definition scale (v : t) (k : R) : t := mk (X v * k) (Y v * k) (Z v * k).

(** [a * b] on two vectors is the dot product. *)
Definition dot (a b : t) : R := X a * X b + Y a * Y b + Z a * Z b.

(** [v.Unitize()] works in place and reports success; a vector of length
    zero cannot be unitized and is left as it is.  The pair is the flag and
    the vector after the call. *)
Definition Unitize (v : t) : bool * t :=
  if Req_dec_T (Length v) 0 then (false, v)
  else (true, mk (X v / Length v) (Y v / Length v) (Z v / Length v)).

(** [RhinoMath.UnsetValue], which [VectorAngle] returns when one of its
    arguments cannot be unitized. *)
Definition UnsetValue : R := - (123432101234321 * 10 ^ 294).

Definition clamp (x : R) : R :=
  if gtb x 1 then 1 else if ltb x (-1) then -1 else x.

Definition VectorAngle (a b : t) : R :=
  let (oka, ua) := Unitize a in
  let (okb, ub) := Unitize b in
  if oka && okb then acos (clamp (dot ua ub)) else UnsetValue.

End Vector3d.

(** ** [Rhino.Geometry.Point3d] *)

Module Point3d.

Record t : Type := mk { X : R; Y : R; Z : R }.

(** [p.Transform(Transform.Translation(d))] *)
Definition translate (p : t) (d : Vector3d.t) : t :=
  mk (X p + Vector3d.X d) (Y p + Vector3d.Y d) (Z p + Vector3d.Z d).

(** [p - q] on two points is the vector from [q] to [p]. *)
Definition sub (p q : t) : Vector3d.t :=
  Vector3d.mk (X p - X q) (Y p - Y q) (Z p - Z q).

Definition DistanceTo (p q : t) : R := Vector3d.Length (sub q p).

End Point3d.

(** ** The terrain mesh

    A [MeshPoint] is what [ClosestMeshPoint] returns: a location on the mesh
    and the face it lies on.  The mesh is seen through its two queries;
    [NormalAt] answers from the normals as [Normals.ComputeNormals()] leaves
    them. *)

Record MeshPoint : Type := { Point : Point3d.t; FaceIndex : Z }.

Record Mesh : Type := {
  ClosestMeshPoint : Point3d.t -> R -> option MeshPoint;
  NormalAt : MeshPoint -> Vector3d.t
}.

(** ** [random]

    The pseudo-random source is the stream of indices its successive
    [random.choice] calls pick: [rng k n] is the index picked by call number
    [k] on a sequence of length [n].  Indexing raises [IndexError] outside
    the sequence, as [seq[...]] does. *)

Inductive exn : Type := IndexError.

Definition Random : Type := nat -> nat -> nat.

Definition choice {A : Type} (rng : Random) (k : nat) (seq : list A) : exn + A :=
  match nth_error seq (rng k (length seq)) with
  | Some x => inr x
  | None => inl IndexError
  end.

(** A source whose picks stay inside the sequence, as every generator of
    [random] does. *)
Definition in_range (rng : Random) : Prop :=
  forall k n, (0 < n)%nat -> (rng k n < n)%nat.

(** ** [range(lo, hi)] *)

Definition range (lo hi : Z) : list Z :=
  map (fun k => (lo + Z.of_nat k)%Z) (seq 0 (Z.to_nat (hi - lo))).

(** ** 1. Configuration and heuristics *)

Record Params : Type := {
  max_slope_deg : R;
  min_dist : R;
  step_size : R;
  sun_vec : Vector3d.t
}.

Definition PARAMS : Params := {|
  max_slope_deg := 30.0;
  min_dist := 3.0;
  step_size := 3.5;
  sun_vec := snd (Vector3d.Unitize (Vector3d.mk 0 (-3) 0.5))
|}.

(** Hexagonal search directions (60-degree increments). *)
Definition growth_directions : list Vector3d.t :=
  map (fun i : Z =>
         let angle := radians (IZR (i * 60)) in
         Vector3d.scale (Vector3d.mk (cos angle) (sin angle) 0) (step_size PARAMS))
      (range 0 6).

(** ** The state of the run

    [modules], [iterations] and [current] are the variables of the source.
    [draws] counts the calls of [random.choice] so far, the position in the
    random stream.  [trace] is a ghost log: what each iteration decided, in
    order; the source keeps no such record and nothing reads it. *)

Inductive decision : Type :=
| Blocked (i : Z)   (* no candidate: backtracked *)
| Grew (i : Z)      (* appended [best_cand] *)
| Idle (i : Z).     (* candidates, but [best_cand] left at [None] *)

Record state : Type := {
  modules : list Point3d.t;
  iterations : list Z;
  current : Point3d.t;
  draws : nat;
  trace : list decision
}.

(** ** 2. Initialization

    Snap the seed to the terrain; where the mesh returns nothing the seed
    point is taken as it is. *)

Definition seeded (terrain_mesh : Mesh) (seed_point : Point3d.t) : state :=
  let mp := ClosestMeshPoint terrain_mesh seed_point 1000000.0 in
  let current := match mp with Some m => Point m | None => seed_point end in
  {| modules := [current]; iterations := [0%Z]; current := current;
     draws := 0; trace := [] |}.

(** ** 3. Main growth loop *)

(** Crit 2: the scan over [modules] that sets [collision] and breaks. *)
Fixpoint collision (modules : list Point3d.t) (cand_pt : Point3d.t) : bool :=
  match modules with
  | [] => false
  | existing :: rest =>
      if ltb (Point3d.DistanceTo cand_pt existing) (min_dist PARAMS - 0.1)
      then true
      else collision rest cand_pt
  end.

(** A. Sensing and B. constraint checking, for one direction [d]: the body
    of [for d in growth_directions], from the list [candidates] before it to
    the list after it. *)
Definition sense_direction (terrain_mesh : Mesh) (modules : list Point3d.t)
    (current : Point3d.t) (candidates : list Point3d.t) (d : Vector3d.t)
    : list Point3d.t :=
  let test_pt := Point3d.translate current d in
  match ClosestMeshPoint terrain_mesh test_pt 1000.0 with
  | None => candidates
  | Some mp_check =>
      let cand_pt := Point mp_check in
      let normal := NormalAt terrain_mesh mp_check in
      let slope_rad := Vector3d.VectorAngle normal Vector3d.ZAxis in
      if gtb (degrees slope_rad) (max_slope_deg PARAMS) then candidates
      else if collision modules cand_pt then candidates
      else candidates ++ [cand_pt]
  end.

Definition sense (terrain_mesh : Mesh) (modules : list Point3d.t)
    (current : Point3d.t) : list Point3d.t :=
  fold_left (sense_direction terrain_mesh modules current) growth_directions [].

(** C. Decision making, open state: the alignment of a candidate with the
    sun, and the scan that keeps [(best_cand, best_score)]. *)
Definition score (current cand : Point3d.t) : R :=
  let growth_dir := snd (Vector3d.Unitize (Point3d.sub cand current)) in
  Vector3d.dot growth_dir (sun_vec PARAMS).

Definition select_step (current : Point3d.t) (best : option Point3d.t * R)
    (cand : Point3d.t) : option Point3d.t * R :=
  if gtb (score current cand) (snd best) then (Some cand, score current cand)
  else best.

Definition select (current : Point3d.t) (candidates : list Point3d.t)
    : option Point3d.t * R :=
  fold_left (select_step current) candidates (None, -999.0).

(** One pass of [for i in range(1, max_modules + 1)]. *)
Definition step (terrain_mesh : Mesh) (rng : Random) (i : Z) (st : state)
    : exn + state :=
  match sense terrain_mesh (modules st) (current st) with
  | [] =>
      match choice rng (draws st) (modules st) with
      | inl e => inl e
      | inr c =>
          inr {| modules := modules st; iterations := iterations st;
                 current := c; draws := S (draws st);
                 trace := trace st ++ [Blocked i] |}
      end
  | candidates =>
      match fst (select (current st) candidates) with
      | Some best_cand =>
          inr {| modules := modules st ++ [best_cand];
                 iterations := iterations st ++ [i];
                 current := best_cand; draws := draws st;
                 trace := trace st ++ [Grew i] |}
      | None =>
          inr {| modules := modules st; iterations := iterations st;
                 current := current st; draws := draws st;
                 trace := trace st ++ [Idle i] |}
      end
  end.

Fixpoint for_each (body : Z -> state -> exn + state) (indices : list Z) (st : state)
    : exn + state :=
  match indices with
  | [] => inr st
  | i :: rest =>
      match body i st with
      | inl e => inl e
      | inr st' => for_each body rest st'
      end
  end.

(** ** The run *)

(** The run up to the end of the loop, with the whole state. *)
Definition simulate (terrain_mesh : Mesh) (rng : Random) (seed_point : Point3d.t)
    (max_modules : Z) : exn + state :=
  for_each (step terrain_mesh rng) (range 1 (max_modules + 1))
           (seeded terrain_mesh seed_point).

Definition run_simulation (terrain_mesh : Mesh) (rng : Random)
    (seed_point : Point3d.t) (max_modules : Z) : exn + list Point3d.t :=
  match simulate terrain_mesh rng seed_point max_modules with
  | inl e => inl e
  | inr st => inr (modules st)
  end.

(** ** Entry point (for Grasshopper)

    [activate] is the boolean toggle of the host; the output [A] is set
    only when it is on, by a run with the default budget of 147. *)

Definition entry_point (activate : bool) (terrain_mesh : Mesh) (rng : Random)
    (seed_point : Point3d.t) : option (exn + list Point3d.t) :=
  if activate then Some (run_simulation terrain_mesh rng seed_point 147)
  else None.

(** * Vocabulary of the statements, and concrete inputs *)

(** What it takes for a grounded point to be accepted from direction [d]. *)
Definition accepted (terrain_mesh : Mesh) (modules : list Point3d.t)
    (current : Point3d.t) (d : Vector3d.t) (mp_check : MeshPoint) : Prop :=
  ClosestMeshPoint terrain_mesh (Point3d.translate current d) 1000.0 = Some mp_check /\
  gtb (degrees (Vector3d.VectorAngle (NormalAt terrain_mesh mp_check) Vector3d.ZAxis))
      (max_slope_deg PARAMS) = false /\
  collision modules (Point mp_check) = false.

(** The colony is never empty and the cursor is one of its modules. *)
Definition cursor_in_colony (st : state) : Prop := In (current st) (modules st).

Definition origin : Point3d.t := Point3d.mk 0 0 0.

(** The horizontal plane [z = 0]: a point within the search radius is
    grounded at its foot on the plane, and every normal is the up axis. *)
Definition flat_terrain : Mesh := {|
  ClosestMeshPoint := fun p radius =>
    if Rle_dec (Rabs (Point3d.Z p)) radius
    then Some {| Point := Point3d.mk (Point3d.X p) (Point3d.Y p) 0; FaceIndex := 0 |}
    else None;
  NormalAt := fun _ => Vector3d.ZAxis
|}.

(** The vertical plane [x = 0]: every normal is horizontal, 90 degrees from
    the up axis. *)
Definition wall_terrain : Mesh := {|
  ClosestMeshPoint := fun p radius =>
    if Rle_dec (Rabs (Point3d.X p)) radius
    then Some {| Point := Point3d.mk 0 (Point3d.Y p) (Point3d.Z p); FaceIndex := 0 |}
    else None;
  NormalAt := fun _ => Vector3d.mk 1 0 0
|}.

(** A mesh with no face: nothing is ever within reach. *)
Definition void_terrain : Mesh := {|
  ClosestMeshPoint := fun _ _ => None;
  NormalAt := fun _ => Vector3d.ZAxis
|}.

(** The source that always picks the first element. *)
Definition first_pick : Random := fun _ _ => 0%nat.

(** Three candidates on the y axis: one against the sun, then two towards
    it, in one and the same direction from the origin. *)
Definition on_y_axis : list Point3d.t :=
  [Point3d.mk 0 3 0; Point3d.mk 0 (-3) 0; Point3d.mk 0 (-4) 0].

Definition apart (A B : Point3d.t) : Prop :=
  Point3d.DistanceTo A B >= min_dist PARAMS - 0.1.

Definition spaced (st : state) : Prop := ForallOrdPairs apart (modules st).

Definition norm2 (v : Vector3d.t) : R :=
  Vector3d.X v * Vector3d.X v + Vector3d.Y v * Vector3d.Y v
  + Vector3d.Z v * Vector3d.Z v.

(** [best] at place [k] is the first candidate of greatest score. *)
Definition first_greatest (current : Point3d.t) (cands : list Point3d.t)
    (k : nat) (best : Point3d.t) : Prop :=
  nth_error cands k = Some best /\
  (forall c, In c cands -> score current c <= score current best) /\
  (forall j c, (j < k)%nat -> nth_error cands j = Some c ->
               score current c < score current best).

(** The normal [n] is within [max_slope_deg] of the up axis: the value the
    source compares, [math.degrees] of [VectorAngle], is at most
    [max_slope_deg]; and where [n] has a direction at all, that value is an
    angle, not below 0, and [n] leans no further from the up axis than
    it: its [Z] over its length is at least the cosine of [max_slope_deg].
    A normal of length zero has no direction; [VectorAngle] answers
    [UnsetValue] for it. *)
Definition normal_within_slope (n : Vector3d.t) : Prop :=
  degrees (Vector3d.VectorAngle n Vector3d.ZAxis) <= max_slope_deg PARAMS /\
  (Vector3d.Length n <> 0 ->
   0 <= degrees (Vector3d.VectorAngle n Vector3d.ZAxis) /\
   cos (radians (max_slope_deg PARAMS)) <= Vector3d.Z n / Vector3d.Length n).

(** The point [p] is where the mesh grounds some query, at a mesh point
    whose normal is within [max_slope_deg] of the up axis. *)
Definition within_slope (terrain_mesh : Mesh) (p : Point3d.t) : Prop :=
  exists query radius mp,
    ClosestMeshPoint terrain_mesh query radius = Some mp /\
    Point mp = p /\
    normal_within_slope (NormalAt terrain_mesh mp).

(** Every module after the first went through the slope test. *)
Definition grown_within_slope (terrain_mesh : Mesh) (st : state) : Prop :=
  modules st <> [] /\ Forall (within_slope terrain_mesh) (tl (modules st)).

Definition decision_index (d : decision) : Z :=
  match d with Blocked i | Grew i | Idle i => i end.

Definition is_blocked (d : decision) : bool :=
  match d with Blocked _ => true | _ => false end.

Definition is_grew (d : decision) : bool :=
  match d with Grew _ => true | _ => false end.




(** A mesh that is the flat plane to the two radii the run uses and has
    nothing within any other radius, with other normals on other faces. *)
Definition flat_terrain_elsewhere : Mesh := {|
  ClosestMeshPoint := fun p radius =>
    if Req_dec_T radius 1000.0 then ClosestMeshPoint flat_terrain p radius
    else if Req_dec_T radius 1000000.0 then ClosestMeshPoint flat_terrain p radius
    else None;
  NormalAt := fun mp =>
    if (FaceIndex mp =? 0)%Z then Vector3d.ZAxis else Vector3d.mk 1 0 0
|}.

(** A source that picks first three times and out of range ever after. *)
Definition first_pick_thrice : Random :=
  fun k len => if (k <? 3)%nat then 0%nat else len.

(** Each direction paired with the next, the last with the first. *)
Definition around {A : Type} (l : list A) : list (A * A) :=
  combine l (tl l ++ firstn 1 l).

(** A colony grown module by module: a seed, then each module the
    grounding of an accepted candidate one direction away from a module
    already there. *)
Inductive rooted (terrain_mesh : Mesh) : list Point3d.t -> Prop :=
| rooted_seed (s : Point3d.t) : rooted terrain_mesh [s]
| rooted_grow (colony : list Point3d.t) (parent : Point3d.t) (d : Vector3d.t)
    (mp : MeshPoint) :
    rooted terrain_mesh colony ->
    In parent colony ->
    In d growth_directions ->
    accepted terrain_mesh colony parent d mp ->
    rooted terrain_mesh (colony ++ [Point mp]).

(** A colony in which every module after the first stands in the relation
    [Q] to a module placed before it. *)
Inductive linked (Q : Point3d.t -> Point3d.t -> Prop) : list Point3d.t -> Prop :=
| linked_seed (s : Point3d.t) : linked Q [s]
| linked_grow (colony : list Point3d.t) (parent m : Point3d.t) :
    linked Q colony -> In parent colony -> Q parent m ->
    linked Q (colony ++ [m]).

(** A mesh whose answers lie within the search radius of the query. *)
Definition honours_radius (terrain_mesh : Mesh) : Prop :=
  forall p radius mp,
    ClosestMeshPoint terrain_mesh p radius = Some mp ->
    Point3d.DistanceTo p (Point mp) <= radius.

(** Every point the mesh grounds within the sensing radius is too steep. *)
Definition steep_within_reach (terrain_mesh : Mesh) : Prop :=
  forall p mp,
    ClosestMeshPoint terrain_mesh p 1000.0 = Some mp ->
    degrees (Vector3d.VectorAngle (NormalAt terrain_mesh mp) Vector3d.ZAxis)
      > max_slope_deg PARAMS.

(** The horizontal plane at height [h]. *)
Definition plane_terrain (h : R) : Mesh := {|
  ClosestMeshPoint := fun p radius =>
    if Rle_dec (Rabs (Point3d.Z p - h)) radius
    then Some {| Point := Point3d.mk (Point3d.X p) (Point3d.Y p) h; FaceIndex := 0 |}
    else None;
  NormalAt := fun _ => Vector3d.ZAxis
|}.

(** * Properties *)

(** ** Comparisons *)

Lemma gtb_true (x y : R) : gtb x y = true <-> x > y.
Proof. unfold gtb; destruct (Rgt_dec x y); split; intros; try discriminate; auto; lra. Qed.

Lemma gtb_false (x y : R) : gtb x y = false <-> x <= y.
Proof. unfold gtb; destruct (Rgt_dec x y); split; intros; try discriminate; auto; lra. Qed.

Lemma ltb_true (x y : R) : ltb x y = true <-> x < y.
Proof. unfold ltb; destruct (Rlt_dec x y); split; intros; try discriminate; auto; lra. Qed.

Lemma ltb_false (x y : R) : ltb x y = false <-> x >= y.
Proof. unfold ltb; destruct (Rlt_dec x y); split; intros; try discriminate; auto; lra. Qed.

(** The clamp of [VectorAngle] leaves a cosine as it is. *)
Lemma clamp_inside (x : R) : -1 <= x <= 1 -> Vector3d.clamp x = x.
Proof.
  intros (Hlo & Hhi). unfold Vector3d.clamp.
  destruct (gtb x 1) eqn:G; [apply gtb_true in G; lra|].
  destruct (ltb x (-1)) eqn:L; [apply ltb_true in L; lra|].
  reflexivity.
Qed.

(** ** Lists *)

Lemma ForallOrdPairs_snoc {A : Type} (P : A -> A -> Prop) (l : list A) (x : A) :
  ForallOrdPairs P l -> Forall (fun e => P e x) l -> ForallOrdPairs P (l ++ [x]).
Proof.
  induction 1 as [|a l Ha Hl IH]; intros Hx; simpl.
  - constructor; [constructor | constructor].
  - inversion Hx as [|? ? Hax Hlx]; subst.
    constructor; [| now apply IH].
    apply Forall_app; split; [exact Ha | now constructor].
Qed.

Lemma ForallOrdPairs_nth {A : Type} (P : A -> A -> Prop) (l : list A) :
  ForallOrdPairs P l ->
  forall i j a b, (i < j)%nat ->
    nth_error l i = Some a -> nth_error l j = Some b -> P a b.
Proof.
  induction 1 as [|x l Hx Hl IH]; intros i j a b Hij Hi Hj.
  - destruct i; discriminate.
  - destruct j as [|j]; [lia|].
    destruct i as [|i]; simpl in Hi, Hj.
    + injection Hi as <-.
      rewrite Forall_forall in Hx. apply Hx. eapply nth_error_In; eauto.
    + apply (IH i j); auto; lia.
Qed.

Lemma range_length (lo hi : Z) : length (range lo hi) = Z.to_nat (hi - lo).
Proof. unfold range. now rewrite length_map, length_seq. Qed.

Lemma range_snoc (lo hi : Z) :
  (lo <= hi)%Z -> range lo (hi + 1) = range lo hi ++ [hi].
Proof.
  intros H. unfold range.
  replace (Z.to_nat (hi + 1 - lo)) with (S (Z.to_nat (hi - lo))) by lia.
  rewrite seq_S, map_app. simpl. do 2 f_equal. lia.
Qed.

(** ** Vectors and distances *)

Lemma DistanceTo_sym (p q : Point3d.t) :
  Point3d.DistanceTo p q = Point3d.DistanceTo q p.
Proof.
  unfold Point3d.DistanceTo, Vector3d.Length, Point3d.sub. simpl.
  f_equal. ring.
Qed.

(** ** The loops

    One terrain and one random source throughout. *)

Section Run.

Variable terrain_mesh : Mesh.
Variable rng : Random.

Lemma sense_direction_cases modules current candidates d :
  sense_direction terrain_mesh modules current candidates d = candidates \/
  exists mp_check,
    accepted terrain_mesh modules current d mp_check /\
    sense_direction terrain_mesh modules current candidates d
      = candidates ++ [Point mp_check].
Proof.
  unfold sense_direction, accepted.
  destruct (ClosestMeshPoint _ _ _) as [mp|]; [|now left].
  destruct (gtb _ _) eqn:Hs; [now left|].
  destruct (collision _ _) eqn:Hc; [now left|].
  right. exists mp. auto.
Qed.

Lemma sense_fold_In modules current ds :
  forall candidates c,
    In c (fold_left (sense_direction terrain_mesh modules current) ds candidates) ->
    In c candidates \/
    exists d mp_check, In d ds /\ Point mp_check = c /\
      accepted terrain_mesh modules current d mp_check.
Proof.
  induction ds as [|d ds IH]; intros candidates c Hc; simpl in Hc; [now left|].
  apply IH in Hc. destruct Hc as [Hc | (d' & mp & Hd & Hp & Ha)].
  - destruct (sense_direction_cases modules current candidates d)
      as [E | (mp & Ha & E)]; rewrite E in Hc; [now left|].
    apply in_app_or in Hc. destruct Hc as [Hc | [Hc | []]]; [now left|].
    right. exists d, mp. simpl. auto.
  - right. exists d', mp. simpl. auto.
Qed.

Lemma sense_In modules current c :
  In c (sense terrain_mesh modules current) ->
  exists d mp_check, In d growth_directions /\ Point mp_check = c /\
    accepted terrain_mesh modules current d mp_check.
Proof.
  intros H. apply sense_fold_In in H. destruct H as [[] | H]. exact H.
Qed.

Lemma collision_false modules cand_pt :
  collision modules cand_pt = false <->
  Forall (fun existing =>
            Point3d.DistanceTo cand_pt existing >= min_dist PARAMS - 0.1) modules.
Proof.
  induction modules as [|e ms IH]; simpl.
  - split; auto.
  - destruct (ltb _ _) eqn:E.
    + split; [discriminate|]. intros H. inversion H; subst.
      apply ltb_true in E. lra.
    + rewrite IH. apply ltb_false in E. split.
      * intros H. now constructor.
      * intros H. now inversion H.
Qed.

Lemma collision_true modules cand_pt :
  collision modules cand_pt = true <->
  Exists (fun existing =>
            Point3d.DistanceTo cand_pt existing < min_dist PARAMS - 0.1) modules.
Proof.
  induction modules as [|e ms IH]; simpl.
  - split; [discriminate | intros H; inversion H].
  - destruct (ltb _ _) eqn:E.
    + apply ltb_true in E. split; auto.
    + rewrite IH. apply ltb_false in E. split.
      * intros H. now right.
      * intros H. inversion H; subst; [lra | assumption].
Qed.

Lemma select_fold_In current cands :
  forall best c,
    fst (fold_left (select_step current) cands best) = Some c ->
    fst best = Some c \/ In c cands.
Proof.
  induction cands as [|x xs IH]; intros best c H; simpl in H; [now left|].
  apply IH in H. destruct H as [H | H]; [|right; now right].
  unfold select_step in H. destruct (gtb _ _); simpl in H.
  - injection H as ->. right; now left.
  - now left.
Qed.

Lemma select_In current cands c :
  fst (select current cands) = Some c -> In c cands.
Proof.
  intros H. apply select_fold_In in H. destruct H as [H | H]; [discriminate | exact H].
Qed.

(** An iteration leaves [modules] as it is or appends one accepted point. *)
Lemma step_modules i st st' :
  step terrain_mesh rng i st = inr st' ->
  modules st' = modules st \/
  exists c, In c (sense terrain_mesh (modules st) (current st)) /\
            modules st' = modules st ++ [c].
Proof.
  unfold step. intros H.
  destruct (sense terrain_mesh (modules st) (current st)) as [|c0 cs] eqn:Hs.
  - destruct (choice _ _ _); [discriminate|]. injection H as <-. now left.
  - destruct (fst (select _ _)) as [b|] eqn:Hb; injection H as <-; simpl; [|now left].
    right. exists b. split; [|reflexivity]. now apply select_In in Hb.
Qed.

(** Invariants of the loop carry over its whole run. *)
Lemma for_each_invariant (body : Z -> state -> exn + state) (P : state -> Prop) :
  (forall i st st', P st -> body i st = inr st' -> P st') ->
  forall indices st st',
    P st -> for_each body indices st = inr st' -> P st'.
Proof.
  intros Hstep. induction indices as [|i rest IH]; intros st st' HP H; simpl in H.
  - now injection H as <-.
  - destruct (body i st) as [e|st1] eqn:E; [discriminate|].
    eapply IH; [|exact H]. eapply Hstep; eauto.
Qed.

Lemma for_each_app body xs ys st :
  for_each body (xs ++ ys) st =
  match for_each body xs st with
  | inl e => inl e
  | inr st' => for_each body ys st'
  end.
Proof.
  revert st. induction xs as [|x xs IH]; intros st; simpl; [reflexivity|].
  destruct (body x st); [reflexivity | apply IH].
Qed.

(** [random.choice] on a sequence that is not empty, with picks in range. *)
Lemma choice_ok {A : Type} (k : nat) (seq : list A) :
  in_range rng -> seq <> [] -> exists x, choice rng k seq = inr x /\ In x seq.
Proof.
  intros Hr Hne. unfold choice.
  destruct (nth_error seq (rng k (length seq))) as [x|] eqn:E.
  - exists x. split; [reflexivity|]. eapply nth_error_In; eauto.
  - apply nth_error_None in E.
    assert (0 < length seq)%nat by (destruct seq; [congruence | simpl; lia]).
    specialize (Hr k (length seq) H). lia.
Qed.

Lemma seeded_cursor seed_point :
  cursor_in_colony (seeded terrain_mesh seed_point).
Proof. unfold cursor_in_colony, seeded. simpl. now left. Qed.

Lemma step_cursor i st st' :
  cursor_in_colony st -> step terrain_mesh rng i st = inr st' -> cursor_in_colony st'.
Proof.
  unfold cursor_in_colony, step. intros Hin H.
  destruct (sense _ _ _) as [|c0 cs].
  - unfold choice in H.
    destruct (nth_error _ _) as [x|] eqn:E; [|discriminate].
    injection H as <-. simpl. eapply nth_error_In; eauto.
  - destruct (fst (select _ _)); injection H as <-; simpl; auto.
    apply in_or_app. right. now left.
Qed.

(** With picks in range no iteration raises. *)
Lemma step_total i st :
  in_range rng -> cursor_in_colony st ->
  exists st', step terrain_mesh rng i st = inr st'.
Proof.
  intros Hr Hin. unfold step.
  destruct (sense _ _ _) as [|c0 cs].
  - destruct (choice_ok (draws st) (modules st) Hr) as (x & -> & _); eauto.
    intros E. unfold cursor_in_colony in Hin. now rewrite E in Hin.
  - destruct (fst (select _ _)); eauto.
Qed.

Lemma for_each_total :
  in_range rng ->
  forall indices st, cursor_in_colony st ->
    exists st', for_each (step terrain_mesh rng) indices st = inr st'.
Proof.
  intros Hr. induction indices as [|i rest IH]; intros st Hin; simpl; eauto.
  destruct (step_total i st Hr Hin) as (st1 & E). rewrite E.
  apply IH. eapply step_cursor; eauto.
Qed.

Lemma simulate_total seed_point max_modules :
  in_range rng -> exists st, simulate terrain_mesh rng seed_point max_modules = inr st.
Proof.
  intros Hr. apply for_each_total; [exact Hr | apply seeded_cursor].
Qed.

End Run.

(** ** Concrete inputs *)

Lemma first_pick_in_range : in_range first_pick.
Proof. intros k n H. exact H. Defined.

(** ** Spacing *)

Lemma apart_sym A B : apart A B -> apart B A.
Proof. unfold apart. now rewrite (DistanceTo_sym B A). Qed.

Lemma step_spaced terrain_mesh rng i st st' :
  spaced st -> step terrain_mesh rng i st = inr st' -> spaced st'.
Proof.
  unfold spaced. intros Hsp H.
  destruct (step_modules _ _ _ _ _ H) as [-> | (c & Hc & ->)]; [exact Hsp|].
  apply ForallOrdPairs_snoc; [exact Hsp|].
  apply sense_In in Hc. destruct Hc as (d & mp & _ & <- & _ & _ & Hcol).
  apply collision_false in Hcol.
  eapply Forall_impl; [|exact Hcol]. intros e He. now apply apart_sym.
Qed.

(** C1. Whatever the terrain, the seed point, the budget and the random
    source (with picks in range), the run returns a colony in which any two
    modules at different places of the sequence lie at least
    [min_dist - 0.1] apart, with [min_dist = 3.0]: the collision scan
    rejects a candidate exactly when some module of the colony is closer
    to it than that. *)
Theorem spacing_invariant (terrain_mesh : Mesh) (rng : Random)
    (seed_point : Point3d.t) (max_modules : Z) :
  in_range rng ->
  min_dist PARAMS = 3.0 /\
  (forall modules cand_pt,
     collision modules cand_pt = true <->
     Exists (fun existing =>
               Point3d.DistanceTo cand_pt existing < min_dist PARAMS - 0.1) modules) /\
  exists colony,
    run_simulation terrain_mesh rng seed_point max_modules = inr colony /\
    forall i j A B, i <> j ->
      nth_error colony i = Some A -> nth_error colony j = Some B ->
      Point3d.DistanceTo A B >= min_dist PARAMS - 0.1.
Proof.
  intros Hr. split; [reflexivity|]. split; [apply collision_true|].
  destruct (simulate_total terrain_mesh rng seed_point max_modules Hr) as (st & E).
  exists (modules st). unfold run_simulation. rewrite E. split; [reflexivity|].
  assert (Hsp : spaced st).
  { unfold simulate in E.
    eapply (for_each_invariant (step terrain_mesh rng) spaced); [| |exact E].
    - intros. eapply step_spaced; eauto.
    - unfold spaced, seeded. simpl. constructor; constructor. }
  intros i j A B Hij Hi Hj.
  destruct (Nat.lt_total i j) as [Hlt | [Heq | Hgt]]; [| contradiction |].
  - exact (ForallOrdPairs_nth apart _ Hsp i j A B Hlt Hi Hj).
  - apply apart_sym. exact (ForallOrdPairs_nth apart _ Hsp j i B A Hgt Hj Hi).
Qed.

Lemma spacing_invariant_witness :
  in_range first_pick /\
  min_dist PARAMS = 3.0 /\
  (forall modules cand_pt,
     collision modules cand_pt = true <->
     Exists (fun existing =>
               Point3d.DistanceTo cand_pt existing < min_dist PARAMS - 0.1) modules) /\
  exists colony,
    run_simulation flat_terrain first_pick origin 3 = inr colony /\
    forall i j A B, i <> j ->
      nth_error colony i = Some A -> nth_error colony j = Some B ->
      Point3d.DistanceTo A B >= min_dist PARAMS - 0.1.
Proof.
  split; [exact first_pick_in_range|].
  apply (spacing_invariant flat_terrain first_pick origin 3).
  exact first_pick_in_range.
Defined.

(** ** Unit vectors and the score *)

Lemma norm2_nonneg v : 0 <= norm2 v.
Proof. unfold norm2. nra. Qed.

Lemma Length_sqr v : Vector3d.Length v * Vector3d.Length v = norm2 v.
Proof. unfold Vector3d.Length. apply sqrt_sqrt. apply norm2_nonneg. Qed.

Lemma Unitize_zero v :
  Vector3d.Length v = 0 -> Vector3d.Unitize v = (false, v).
Proof.
  intros H. unfold Vector3d.Unitize.
  destruct (Req_dec_T (Vector3d.Length v) 0); [reflexivity | contradiction].
Qed.

Lemma Unitize_nonzero v :
  Vector3d.Length v <> 0 ->
  Vector3d.Unitize v =
  (true, Vector3d.mk (Vector3d.X v / Vector3d.Length v)
                     (Vector3d.Y v / Vector3d.Length v)
                     (Vector3d.Z v / Vector3d.Length v)).
Proof.
  intros H. unfold Vector3d.Unitize.
  destruct (Req_dec_T (Vector3d.Length v) 0); [contradiction | reflexivity].
Qed.

Lemma Unitize_nonzero_norm2 v :
  Vector3d.Length v <> 0 -> norm2 (snd (Vector3d.Unitize v)) = 1.
Proof.
  intros NE. rewrite (Unitize_nonzero v NE). unfold norm2. simpl.
  pose proof (Length_sqr v) as HL. unfold norm2 in HL.
  field_simplify_eq; [|exact NE]. lra.
Qed.

(** After [Unitize] a vector has length one, or is the zero vector it was. *)
Lemma Unitize_norm2 v :
  norm2 (snd (Vector3d.Unitize v)) = 1 \/ norm2 (snd (Vector3d.Unitize v)) = 0.
Proof.
  destruct (Req_dec_T (Vector3d.Length v) 0) as [E | NE].
  - right. rewrite (Unitize_zero v E). simpl.
    rewrite <- Length_sqr, E. ring.
  - left. now apply Unitize_nonzero_norm2.
Qed.

Lemma sun_vec_unit : norm2 (sun_vec PARAMS) = 1.
Proof.
  apply Unitize_nonzero_norm2. intros E.
  pose proof (Length_sqr (Vector3d.mk 0 (-3) 0.5)) as HL.
  rewrite E in HL. unfold norm2 in HL. simpl in HL. lra.
Qed.

(** Cauchy-Schwarz in three dimensions. *)
Lemma dot_sqr_le a b :
  Vector3d.dot a b * Vector3d.dot a b <= norm2 a * norm2 b.
Proof.
  unfold Vector3d.dot, norm2.
  destruct a as [a1 a2 a3], b as [b1 b2 b3]. simpl.
  pose proof (Rle_0_sqr (a1 * b2 - a2 * b1)).
  pose proof (Rle_0_sqr (a1 * b3 - a3 * b1)).
  pose proof (Rle_0_sqr (a2 * b3 - a3 * b2)).
  unfold Rsqr in *. lra.
Qed.

(** Every score is a dot product of a unit (or zero) vector with the unit
    sun vector. *)
Lemma score_bounds current cand : -1 <= score current cand <= 1.
Proof.
  unfold score.
  set (u := snd (Vector3d.Unitize (Point3d.sub cand current))).
  pose proof (dot_sqr_le u (sun_vec PARAMS)) as H.
  rewrite sun_vec_unit in H.
  assert (Hu : norm2 u <= 1) by (destruct (Unitize_norm2 (Point3d.sub cand current)); subst u; lra).
  nra.
Qed.

Lemma score_above_sentinel current cand : score current cand > -999.0.
Proof. pose proof (score_bounds current cand). lra. Qed.

Lemma Length_unit v : norm2 v = 1 -> Vector3d.Length v = 1.
Proof.
  intros H. unfold Vector3d.Length. fold (norm2 v). rewrite H. apply sqrt_1.
Qed.

Lemma Unitize_unit v :
  Vector3d.Length v <> 0 ->
  fst (Vector3d.Unitize v) = true /\
  Vector3d.Length (snd (Vector3d.Unitize v)) = 1.
Proof.
  intros NE. split; [now rewrite (Unitize_nonzero v NE)|].
  now apply Length_unit, Unitize_nonzero_norm2.
Qed.

(** The growth vector to an accepted candidate is never the zero vector: the
    cursor is a module of the colony, and the candidate is clear of all. *)
Lemma accepted_growth_unit terrain_mesh st c :
  In (current st) (modules st) ->
  In c (sense terrain_mesh (modules st) (current st)) ->
  Vector3d.Length (snd (Vector3d.Unitize (Point3d.sub c (current st)))) = 1.
Proof.
  intros Hcur Hc. apply sense_In in Hc.
  destruct Hc as (d & mp & _ & <- & _ & _ & Hcol).
  apply collision_false in Hcol. rewrite Forall_forall in Hcol.
  specialize (Hcol (current st) Hcur). rewrite DistanceTo_sym in Hcol.
  unfold Point3d.DistanceTo in Hcol. simpl in Hcol.
  apply Unitize_unit. lra.
Qed.

(** ** The selector *)

Lemma select_snoc current cands x :
  select current (cands ++ [x]) = select_step current (select current cands) x.
Proof. unfold select. now rewrite fold_left_app. Qed.

Lemma select_first_greatest current cands :
  cands <> [] ->
  exists k best,
    select current cands = (Some best, score current best) /\
    first_greatest current cands k best.
Proof.
  induction cands as [|x l IH] using rev_ind; [congruence|]. intros _.
  rewrite select_snoc. destruct l as [|y l'].
  - (* the first candidate beats the sentinel *)
    unfold select, select_step. simpl.
    pose proof (score_above_sentinel current x) as Hx.
    apply gtb_true in Hx. rewrite Hx.
    exists 0%nat, x. split; [reflexivity|]. repeat split.
    + intros c [<- | []]. lra.
    + intros j c Hj. lia.
  - destruct IH as (k & best & E & Hk & Hmax & Hfirst); [discriminate|].
    remember (y :: l') as l eqn:El. clear El.
    rewrite E. unfold select_step. cbn [snd].
    destruct (gtb (score current x) (score current best)) eqn:G.
    + apply gtb_true in G.
      exists (length l), x. split; [reflexivity|]. repeat split.
      * rewrite nth_error_app2 by lia. now rewrite Nat.sub_diag.
      * intros c Hc. apply in_app_or in Hc. destruct Hc as [Hc | [<- | []]]; [|lra].
        specialize (Hmax c Hc). lra.
      * intros j c Hj Hc. rewrite nth_error_app1 in Hc by exact Hj.
        apply nth_error_In in Hc. specialize (Hmax c Hc). lra.
    + apply gtb_false in G.
      assert (Hkl : (k < length l)%nat) by (apply nth_error_Some; congruence).
      exists k, best. split; [reflexivity|]. repeat split.
      * rewrite nth_error_app1 by exact Hkl. exact Hk.
      * intros c Hc. apply in_app_or in Hc. destruct Hc as [Hc | [<- | []]]; auto.
      * intros j c Hj Hc. rewrite nth_error_app1 in Hc by lia. eauto.
Qed.

(** C6. For a list of accepted candidates that is not empty, the selector
    returns the candidate whose score, the dot product of the unitized
    vector from the cursor to the candidate with the sun vector, is
    greatest; among candidates of equal greatest score it returns the one
    that comes first in the list: every candidate before it scores strictly
    less. *)
Theorem selector_first_greatest (current : Point3d.t) (candidates : list Point3d.t) :
  candidates <> [] ->
  exists k best_cand,
    fst (select current candidates) = Some best_cand /\
    snd (select current candidates)
      = Vector3d.dot (snd (Vector3d.Unitize (Point3d.sub best_cand current)))
                     (sun_vec PARAMS) /\
    nth_error candidates k = Some best_cand /\
    (forall c, In c candidates -> score current c <= score current best_cand) /\
    (forall j c, (j < k)%nat -> nth_error candidates j = Some c ->
                 score current c < score current best_cand).
Proof.
  intros Hne.
  destruct (select_first_greatest current candidates Hne)
    as (k & best & E & Hk & Hmax & Hfirst).
  exists k, best. rewrite E. simpl. repeat split; auto.
Qed.

Lemma selector_first_greatest_witness :
  on_y_axis <> [] /\
  exists k best_cand,
    fst (select origin on_y_axis) = Some best_cand /\
    snd (select origin on_y_axis)
      = Vector3d.dot (snd (Vector3d.Unitize (Point3d.sub best_cand origin)))
                     (sun_vec PARAMS) /\
    nth_error on_y_axis k = Some best_cand /\
    (forall c, In c on_y_axis -> score origin c <= score origin best_cand) /\
    (forall j c, (j < k)%nat -> nth_error on_y_axis j = Some c ->
                 score origin c < score origin best_cand).
Proof.
  split; [discriminate|].
  apply (selector_first_greatest origin on_y_axis). discriminate.
Defined.

(** ** The run, one iteration at a time *)

Lemma simulate_succ terrain_mesh rng seed_point (k : Z) :
  (0 <= k)%Z ->
  simulate terrain_mesh rng seed_point (k + 1) =
  match simulate terrain_mesh rng seed_point k with
  | inl e => inl e
  | inr st => step terrain_mesh rng (k + 1) st
  end.
Proof.
  intros Hk. unfold simulate.
  rewrite (range_snoc 1 (k + 1)) by lia. rewrite for_each_app.
  destruct (for_each _ _ _) as [e|st]; [reflexivity|]. simpl.
  destruct (step _ _ _ _); reflexivity.
Qed.

Lemma simulate_cursor terrain_mesh rng seed_point max_modules st :
  simulate terrain_mesh rng seed_point max_modules = inr st -> cursor_in_colony st.
Proof.
  unfold simulate. intros H.
  eapply (for_each_invariant (step terrain_mesh rng) cursor_in_colony); [| |exact H].
  - intros. eapply step_cursor; eauto.
  - apply seeded_cursor.
Qed.

(** The open state always finds a best candidate. *)
Lemma step_open terrain_mesh rng i st :
  sense terrain_mesh (modules st) (current st) <> [] ->
  exists best_cand,
    fst (select (current st) (sense terrain_mesh (modules st) (current st)))
      = Some best_cand /\
    In best_cand (sense terrain_mesh (modules st) (current st)) /\
    step terrain_mesh rng i st =
    inr {| modules := modules st ++ [best_cand];
           iterations := iterations st ++ [i];
           current := best_cand; draws := draws st;
           trace := trace st ++ [Grew i] |}.
Proof.
  intros Hne.
  destruct (select_first_greatest (current st) _ Hne) as (k & best & E & Hk & _).
  exists best. rewrite E. simpl. split; [reflexivity|].
  split; [eapply nth_error_In; eauto|].
  unfold step. destruct (sense _ _ _) as [|c0 cs]; [congruence|].
  now rewrite E.
Qed.

Lemma step_blocked terrain_mesh rng i st :
  in_range rng -> cursor_in_colony st ->
  sense terrain_mesh (modules st) (current st) = [] ->
  exists c,
    choice rng (draws st) (modules st) = inr c /\ In c (modules st) /\
    step terrain_mesh rng i st =
    inr {| modules := modules st; iterations := iterations st;
           current := c; draws := S (draws st);
           trace := trace st ++ [Blocked i] |}.
Proof.
  intros Hr Hin Hs.
  destruct (choice_ok rng (draws st) (modules st) Hr) as (c & Ec & Hc).
  { intros E. unfold cursor_in_colony in Hin. now rewrite E in Hin. }
  exists c. repeat split; auto. unfold step. now rewrite Hs, Ec.
Qed.

(** ** Slope *)

Lemma ZAxis_length : Vector3d.Length Vector3d.ZAxis = 1.
Proof.
  unfold Vector3d.Length, Vector3d.ZAxis. simpl.
  replace (0 * 0 + 0 * 0 + 1 * 1) with 1 by ring. apply sqrt_1.
Qed.

(** [VectorAngle] to the up axis, for a normal that has a direction. *)
Lemma VectorAngle_up (n : Vector3d.t) :
  Vector3d.Length n <> 0 ->
  Vector3d.VectorAngle n Vector3d.ZAxis
  = acos (Vector3d.clamp (Vector3d.Z n / Vector3d.Length n)).
Proof.
  intros NE. unfold Vector3d.VectorAngle.
  rewrite (Unitize_nonzero n NE).
  rewrite (Unitize_nonzero Vector3d.ZAxis) by (rewrite ZAxis_length; lra).
  rewrite ZAxis_length. cbn [andb]. do 2 f_equal.
  unfold Vector3d.dot, Vector3d.ZAxis. simpl. field. exact NE.
Qed.

Lemma clamp_bounds (x : R) : -1 <= Vector3d.clamp x <= 1.
Proof.
  unfold Vector3d.clamp.
  destruct (gtb x 1) eqn:G; [lra|]. apply gtb_false in G.
  destruct (ltb x (-1)) eqn:L; [lra|]. apply ltb_false in L. lra.
Qed.

(** What the test of line 79 lets through is within the slope limit. *)
Lemma guard_within_slope (n : Vector3d.t) :
  gtb (degrees (Vector3d.VectorAngle n Vector3d.ZAxis)) (max_slope_deg PARAMS) = false ->
  normal_within_slope n.
Proof.
  intros G. apply gtb_false in G. split; [exact G|]. intros NE.
  rewrite (VectorAngle_up n NE) in *.
  set (c := Vector3d.Z n / Vector3d.Length n) in *.
  pose proof PI_RGT_0 as Hpi.
  pose proof (acos_bound (Vector3d.clamp c)) as (Hlo & Hhi).
  pose proof (clamp_bounds c) as Hc.
  assert (Hsixth : acos (Vector3d.clamp c) <= PI / 6).
  { unfold degrees in G. simpl in G.
    apply (Rmult_le_compat_r (PI / 180)) in G; [|lra].
    replace (acos (Vector3d.clamp c) * (180 / PI) * (PI / 180))
      with (acos (Vector3d.clamp c)) in G by (field; lra).
    lra. }
  split.
  - unfold degrees. apply Rmult_le_pos; [exact Hlo|].
    apply Rlt_le, Rdiv_lt_0_compat; lra.
  - replace (radians (max_slope_deg PARAMS)) with (PI / 6)
      by (unfold radians, PARAMS; cbn [max_slope_deg]; lra).
    assert (Hcos : cos (PI / 6) <= Vector3d.clamp c).
    { rewrite <- (cos_acos (Vector3d.clamp c) Hc).
      apply cos_decr_1; lra. }
    assert (Hpos : 0 < cos (PI / 6))
      by (rewrite cos_PI6; apply Rdiv_lt_0_compat; [apply sqrt_lt_R0|]; lra).
    unfold Vector3d.clamp in Hcos.
    destruct (gtb c 1) eqn:G1; [apply gtb_true in G1; lra|].
    destruct (ltb c (-1)) eqn:L1; [lra | exact Hcos].
Qed.

Lemma accepted_within_slope terrain_mesh modules current d mp :
  accepted terrain_mesh modules current d mp ->
  within_slope terrain_mesh (Point mp).
Proof.
  intros (Hq & Hs & _). exists (Point3d.translate current d), 1000.0, mp.
  repeat split; auto; now apply guard_within_slope.
Qed.

Lemma step_within_slope terrain_mesh rng i st st' :
  grown_within_slope terrain_mesh st ->
  step terrain_mesh rng i st = inr st' ->
  grown_within_slope terrain_mesh st'.
Proof.
  intros (Hne & Hall) H. unfold grown_within_slope.
  destruct (step_modules _ _ _ _ _ H) as [-> | (c & Hc & ->)]; [now split|].
  split; [now destruct (modules st)|].
  destruct (modules st) as [|m ms]; [congruence|]. simpl in *.
  apply Forall_app. split; [exact Hall|]. constructor; [|constructor].
  apply sense_In in Hc. destruct Hc as (d & mp & _ & <- & Ha).
  eapply accepted_within_slope; eauto.
Qed.

(** The angle of a horizontal normal with the up axis. *)
Lemma wall_angle :
  degrees (Vector3d.VectorAngle (Vector3d.mk 1 0 0) Vector3d.ZAxis) = 90.
Proof.
  assert (L1 : Vector3d.Length (Vector3d.mk 1 0 0) = 1).
  { unfold Vector3d.Length. simpl.
    replace (1 * 1 + 0 * 0 + 0 * 0) with 1 by ring. apply sqrt_1. }
  assert (L2 : Vector3d.Length Vector3d.ZAxis = 1).
  { unfold Vector3d.Length, Vector3d.ZAxis. simpl.
    replace (0 * 0 + 0 * 0 + 1 * 1) with 1 by ring. apply sqrt_1. }
  unfold Vector3d.VectorAngle.
  rewrite (Unitize_nonzero (Vector3d.mk 1 0 0)) by (rewrite L1; lra).
  rewrite (Unitize_nonzero Vector3d.ZAxis) by (rewrite L2; lra).
  rewrite L1, L2. simpl.
  replace (Vector3d.dot _ _) with 0 by (unfold Vector3d.dot; simpl; field).
  rewrite clamp_inside by lra.
  rewrite acos_0. unfold degrees. field. apply PI_neq0.
Qed.

(** On the wall every grounded candidate is too steep. *)
Lemma wall_sense modules current : sense wall_terrain modules current = [].
Proof.
  unfold sense.
  assert (H : forall ds, fold_left (sense_direction wall_terrain modules current) ds [] = []).
  { induction ds as [|d ds IH]; simpl; [reflexivity|].
    replace (sense_direction wall_terrain modules current [] d) with (@nil Point3d.t);
      [exact IH|].
    unfold sense_direction.
    destruct (ClosestMeshPoint wall_terrain _ _) as [mp|]; [|reflexivity].
    cbn [NormalAt wall_terrain]. rewrite wall_angle.
    replace (gtb 90 (max_slope_deg PARAMS)) with true; [reflexivity|].
    symmetry. apply gtb_true. simpl. lra. }
  apply H.
Qed.

Lemma wall_seeded :
  seeded wall_terrain origin =
  {| modules := [origin]; iterations := [0%Z]; current := origin;
     draws := 0; trace := [] |}.
Proof.
  unfold seeded. cbn [ClosestMeshPoint wall_terrain].
  destruct (Rle_dec _ _) as [_ | N]; [reflexivity|].
  exfalso. apply N. simpl. rewrite Rabs_R0. lra.
Qed.

Lemma wall_run : run_simulation wall_terrain first_pick origin 1 = inr [origin].
Proof.
  unfold run_simulation, simulate. rewrite wall_seeded.
  change (range 1 (1 + 1)) with [1%Z]. cbn [for_each].
  unfold step. cbn [modules current]. rewrite wall_sense.
  reflexivity.
Qed.

Lemma wall_not_within_slope p : ~ within_slope wall_terrain p.
Proof.
  intros (q & r & mp & _ & _ & H & _). cbn [NormalAt wall_terrain] in H.
  rewrite wall_angle in H. simpl in H. lra.
Qed.

(** C2 holds of every module but the seed, which the code places without
    the slope test that its candidates go through.  On the wall the seed is
    grounded where the normal is 90 degrees from the up axis, the one
    iteration is blocked (every candidate is too steep), and the run
    returns the seed alone: a module on terrain steeper than 30 degrees. *)
Lemma seed_slope_unchecked :
  ClosestMeshPoint wall_terrain origin 1000000.0
    = Some {| Point := origin; FaceIndex := 0 |} /\
  degrees (Vector3d.VectorAngle
             (NormalAt wall_terrain {| Point := origin; FaceIndex := 0 |})
             Vector3d.ZAxis) = 90 /\
  90 > max_slope_deg PARAMS /\
  run_simulation wall_terrain first_pick origin 1 = inr [origin] /\
  ~ Forall (within_slope wall_terrain) [origin].
Proof.
  split; [|split; [|split; [|split]]].
  - cbn [ClosestMeshPoint wall_terrain].
    destruct (Rle_dec _ _) as [_ | N]; [reflexivity|].
    exfalso. apply N. simpl. rewrite Rabs_R0. lra.
  - apply wall_angle.
  - simpl. lra.
  - apply wall_run.
  - intros H. inversion H; subst. eapply wall_not_within_slope; eauto.
Qed.

(** Every result starts with the seed module. *)
Lemma simulate_head (terrain_mesh : Mesh) (rng : Random)
    (seed_point : Point3d.t) (max_modules : Z) :
  in_range rng ->
  exists st grown,
    simulate terrain_mesh rng seed_point max_modules = inr st /\
    modules st = current (seeded terrain_mesh seed_point) :: grown.
Proof.
  intros Hr.
  destruct (simulate_total terrain_mesh rng seed_point max_modules Hr) as (st & E).
  exists st. pose proof E as E0. unfold simulate in E.
  assert (Hh : hd_error (modules st)
               = Some (current (seeded terrain_mesh seed_point))).
  { eapply (for_each_invariant (step terrain_mesh rng)
              (fun s => hd_error (modules s)
                        = Some (current (seeded terrain_mesh seed_point))));
      [| |exact E].
    - intros i s s' Hh Hs.
      destruct (step_modules _ _ _ _ _ Hs) as [-> | (c & _ & ->)]; [exact Hh|].
      destruct (modules s); [discriminate | exact Hh].
    - reflexivity. }
  destruct (modules st) as [|m ms]; [discriminate|].
  injection Hh as ->. exists ms. split; [exact E0 | reflexivity].
Qed.

(** The shape of every result: the seed module, then the modules that
    went through the slope test. *)
Lemma simulate_grown (terrain_mesh : Mesh) (rng : Random)
    (seed_point : Point3d.t) (max_modules : Z) :
  in_range rng ->
  exists st grown,
    simulate terrain_mesh rng seed_point max_modules = inr st /\
    modules st = current (seeded terrain_mesh seed_point) :: grown /\
    Forall (within_slope terrain_mesh) grown.
Proof.
  intros Hr.
  destruct (simulate_total terrain_mesh rng seed_point max_modules Hr) as (st & E).
  exists st. pose proof E as E0. unfold simulate in E.
  assert (H : grown_within_slope terrain_mesh st /\
              hd_error (modules st) = Some (current (seeded terrain_mesh seed_point))).
  { eapply (for_each_invariant (step terrain_mesh rng)
              (fun s => grown_within_slope terrain_mesh s /\
                        hd_error (modules s)
                          = Some (current (seeded terrain_mesh seed_point))));
      [| |exact E].
    - intros i s s' (Hg & Hh) Hs. split; [eapply step_within_slope; eauto|].
      destruct (step_modules _ _ _ _ _ Hs) as [-> | (c & _ & ->)]; [exact Hh|].
      destruct (modules s); [discriminate | exact Hh].
    - split; [split; [discriminate | constructor] | reflexivity]. }
  destruct H as ((_ & Hall) & Hh).
  destruct (modules st) as [|m ms]; [discriminate|].
  injection Hh as ->. exists ms. repeat split; auto.
Qed.

(** The modules that the loop places keep to the slope limit.  The run
    returns a colony whose first module is the seed, and every module after
    the first is a point where the mesh grounded a query at a mesh point
    whose normal passed the test of line 79; where that normal has a
    direction, its angle with the up axis lies between 0 and
    [max_slope_deg = 30] degrees, its [Z] over its length being at least
    [cos 30]. *)
Theorem slope_invariant_grown (terrain_mesh : Mesh) (rng : Random)
    (seed_point : Point3d.t) (max_modules : Z) :
  in_range rng ->
  max_slope_deg PARAMS = 30 /\
  exists grown,
    run_simulation terrain_mesh rng seed_point max_modules
      = inr (current (seeded terrain_mesh seed_point) :: grown) /\
    Forall (within_slope terrain_mesh) grown.
Proof.
  intros Hr. split; [simpl; lra|].
  destruct (simulate_grown terrain_mesh rng seed_point max_modules Hr)
    as (st & grown & E & Hm & Hall).
  exists grown. unfold run_simulation. rewrite E, Hm. auto.
Qed.

Lemma slope_invariant_grown_witness :
  in_range first_pick /\
  max_slope_deg PARAMS = 30 /\
  exists grown,
    run_simulation flat_terrain first_pick origin 3
      = inr (current (seeded flat_terrain origin) :: grown) /\
    Forall (within_slope flat_terrain) grown.
Proof.
  split; [exact first_pick_in_range|].
  apply (slope_invariant_grown flat_terrain first_pick origin 3).
  exact first_pick_in_range.
Defined.

(** ** A seed that cannot be grounded *)

Lemma void_sense modules current : sense void_terrain modules current = [].
Proof.
  unfold sense.
  induction growth_directions as [|d ds IH]; simpl; [reflexivity | exact IH].
Qed.

Lemma void_step i x ms its cur dr tr :
  step void_terrain first_pick i
    {| modules := x :: ms; iterations := its; current := cur; draws := dr; trace := tr |}
  = inr {| modules := x :: ms; iterations := its; current := x; draws := S dr;
           trace := tr ++ [Blocked i] |}.
Proof. unfold step. cbn [modules current]. rewrite void_sense. reflexivity. Qed.

(** C3 fails: on a mesh that grounds nothing the run raises no error.  It
    goes through its three iterations, all blocked, and returns the seed
    point as given for the whole colony. *)
Lemma ungrounded_seed_proceeds :
  ClosestMeshPoint void_terrain origin 1000000.0 = None /\
  run_simulation void_terrain first_pick origin 3 = inr [origin] /\
  (exists st, simulate void_terrain first_pick origin 3 = inr st /\
              trace st = [Blocked 1; Blocked 2; Blocked 3]).
Proof.
  split; [reflexivity|].
  unfold run_simulation, simulate.
  change (range 1 (3 + 1)) with [1%Z; 2%Z; 3%Z].
  change (seeded void_terrain origin) with
    {| modules := [origin]; iterations := [0%Z]; current := origin;
       draws := 0; trace := [] |}.
  cbn [for_each]. rewrite void_step. rewrite void_step. rewrite void_step.
  cbn [modules trace app].
  split; [reflexivity|]. eexists. split; reflexivity.
Qed.

(** C3, as the code has it.  When the large-radius projection of the seed
    returns nothing, the run does not fail: it takes the seed point as given
    for the cursor and the first module, goes through the growth loop, and
    returns a colony that starts with that point. *)
Theorem ungrounded_seed_fallback (terrain_mesh : Mesh) (rng : Random)
    (seed_point : Point3d.t) (max_modules : Z) :
  in_range rng ->
  ClosestMeshPoint terrain_mesh seed_point 1000000.0 = None ->
  seeded terrain_mesh seed_point =
    {| modules := [seed_point]; iterations := [0%Z]; current := seed_point;
       draws := 0; trace := [] |} /\
  exists grown,
    run_simulation terrain_mesh rng seed_point max_modules
      = inr (seed_point :: grown).
Proof.
  intros Hr Hnone.
  assert (Hs : seeded terrain_mesh seed_point =
    {| modules := [seed_point]; iterations := [0%Z]; current := seed_point;
       draws := 0; trace := [] |}) by (unfold seeded; now rewrite Hnone).
  split; [exact Hs|].
  destruct (simulate_head terrain_mesh rng seed_point max_modules Hr)
    as (st & grown & E & Hm).
  exists grown. unfold run_simulation. rewrite E, Hm, Hs. reflexivity.
Qed.

Lemma ungrounded_seed_fallback_witness :
  in_range first_pick /\
  ClosestMeshPoint void_terrain origin 1000000.0 = None /\
  seeded void_terrain origin =
    {| modules := [origin]; iterations := [0%Z]; current := origin;
       draws := 0; trace := [] |} /\
  exists grown,
    run_simulation void_terrain first_pick origin 3 = inr (origin :: grown).
Proof.
  split; [exact first_pick_in_range|]. split; [reflexivity|].
  apply (ungrounded_seed_fallback void_terrain first_pick origin 3).
  - exact first_pick_in_range.
  - reflexivity.
Defined.

(** ** The budget *)

(** An iteration is blocked and appends nothing, or grows by one module. *)
Lemma step_decision terrain_mesh rng i st st' :
  step terrain_mesh rng i st = inr st' ->
  (trace st' = trace st ++ [Blocked i] /\ modules st' = modules st /\
   iterations st' = iterations st /\ In (current st') (modules st) /\
   sense terrain_mesh (modules st) (current st) = []) \/
  (trace st' = trace st ++ [Grew i] /\
   modules st' = modules st ++ [current st'] /\
   iterations st' = iterations st ++ [i] /\
   In (current st') (sense terrain_mesh (modules st) (current st))).
Proof.
  intros H.
  destruct (sense terrain_mesh (modules st) (current st)) as [|c0 cs] eqn:Hs.
  - left. unfold step in H. rewrite Hs in H. unfold choice in H.
    destruct (nth_error _ _) as [x|] eqn:E; [|discriminate].
    injection H as <-. simpl. repeat split. eapply nth_error_In; eauto.
  - right.
    destruct (step_open terrain_mesh rng i st) as (b & _ & Hin & E);
      [rewrite Hs; discriminate|].
    rewrite E in H. injection H as <-.
    cbn [trace modules iterations current]. rewrite Hs in Hin. auto.
Qed.

Lemma for_each_decisions terrain_mesh rng :
  forall indices st st',
    for_each (step terrain_mesh rng) indices st = inr st' ->
    exists ds,
      trace st' = trace st ++ ds /\
      map decision_index ds = indices /\
      length (modules st') = (length (modules st) + length (filter is_grew ds))%nat /\
      (length (filter is_grew ds) + length (filter is_blocked ds))%nat = length ds.
Proof.
  induction indices as [|i rest IH]; intros st st' H; simpl in H.
  - injection H as <-. exists []. simpl. rewrite app_nil_r. repeat split; lia.
  - destruct (step terrain_mesh rng i st) as [e|st1] eqn:E; [discriminate|].
    destruct (IH _ _ H) as (ds & Ht & Hi & Hm & Hc).
    destruct (step_decision _ _ _ _ _ E) as [(T & M & _) | (T & M & _)].
    + exists (Blocked i :: ds). rewrite Ht, T, <- app_assoc. simpl.
      rewrite Hi, Hm, M. repeat split; lia.
    + exists (Grew i :: ds). rewrite Ht, T, <- app_assoc. simpl.
      rewrite Hi, Hm, M, length_app. simpl. repeat split; lia.
Qed.

(** C4. With a budget [max_modules = N], [N >= 0], the driver goes through
    exactly [N] decisions, one for each of the iterations [1 .. N] in order,
    a blocked iteration counting like a growing one; the colony it returns
    has one module for the seed and one for each growing iteration, hence at
    most [N + 1] modules, and as many fewer as there were blocked
    iterations. *)
Theorem budget_semantics (terrain_mesh : Mesh) (rng : Random)
    (seed_point : Point3d.t) (N : Z) :
  (0 <= N)%Z -> in_range rng ->
  exists st,
    simulate terrain_mesh rng seed_point N = inr st /\
    run_simulation terrain_mesh rng seed_point N = inr (modules st) /\
    map decision_index (trace st) = range 1 (N + 1) /\
    Z.of_nat (length (trace st)) = N /\
    length (modules st) = (1 + length (filter is_grew (trace st)))%nat /\
    (Z.of_nat (length (modules st))
     + Z.of_nat (length (filter is_blocked (trace st))) = N + 1)%Z /\
    (Z.of_nat (length (modules st)) <= N + 1)%Z.
Proof.
  intros HN Hr.
  destruct (simulate_total terrain_mesh rng seed_point N Hr) as (st & E).
  exists st. split; [exact E|]. split; [unfold run_simulation; now rewrite E|].
  unfold simulate in E. apply for_each_decisions in E.
  destruct E as (ds & Ht & Hi & Hm & Hc). simpl in Ht, Hm. subst ds.
  assert (HL : length (trace st) = Z.to_nat N).
  { rewrite <- (length_map decision_index), Hi, range_length. lia. }
  repeat split; auto; lia.
Qed.

Lemma budget_semantics_witness :
  (0 <= 3)%Z /\ in_range first_pick /\
  exists st,
    simulate flat_terrain first_pick origin 3 = inr st /\
    run_simulation flat_terrain first_pick origin 3 = inr (modules st) /\
    map decision_index (trace st) = range 1 (3 + 1) /\
    Z.of_nat (length (trace st)) = 3%Z /\
    length (modules st) = (1 + length (filter is_grew (trace st)))%nat /\
    (Z.of_nat (length (modules st))
     + Z.of_nat (length (filter is_blocked (trace st))) = 3 + 1)%Z /\
    (Z.of_nat (length (modules st)) <= 3 + 1)%Z.
Proof.
  split; [lia|]. split; [exact first_pick_in_range|].
  apply (budget_semantics flat_terrain first_pick origin 3).
  - lia.
  - exact first_pick_in_range.
Defined.

(** ** Blocked iterations *)

(** A direction the mesh cannot ground leaves the candidates of the other
    directions as they are. *)
Lemma sense_skips_ungrounded terrain_mesh modules current before d after candidates :
  ClosestMeshPoint terrain_mesh (Point3d.translate current d) 1000.0 = None ->
  fold_left (sense_direction terrain_mesh modules current) (before ++ d :: after) candidates
  = fold_left (sense_direction terrain_mesh modules current) (before ++ after) candidates.
Proof.
  intros H. rewrite !fold_left_app. simpl. f_equal.
  unfold sense_direction. now rewrite H.
Qed.

(** C7. In every iteration [k + 1] of a run (with picks in range): a
    direction whose projection fails is dropped, no error is raised, and the
    accepted candidates are those of the other directions, in their order;
    when no candidate is accepted, for whatever reason, the iteration is
    blocked: the cursor becomes the module of the current colony that
    [random.choice] picks, the colony and its creation indices stay as they
    are; and the run returns a colony, never an error. *)
Theorem blocked_is_not_an_error (terrain_mesh : Mesh) (rng : Random)
    (seed_point : Point3d.t) (k : Z) :
  (0 <= k)%Z -> in_range rng ->
  exists st,
    simulate terrain_mesh rng seed_point k = inr st /\
    (forall before d after,
       growth_directions = before ++ d :: after ->
       ClosestMeshPoint terrain_mesh (Point3d.translate (current st) d) 1000.0 = None ->
       sense terrain_mesh (modules st) (current st)
       = fold_left (sense_direction terrain_mesh (modules st) (current st))
                   (before ++ after) []) /\
    (sense terrain_mesh (modules st) (current st) = [] ->
     exists c,
       nth_error (modules st) (rng (draws st) (length (modules st))) = Some c /\
       choice rng (draws st) (modules st) = inr c /\
       In c (modules st) /\
       simulate terrain_mesh rng seed_point (k + 1) =
       inr {| modules := modules st; iterations := iterations st;
              current := c; draws := S (draws st);
              trace := trace st ++ [Blocked (k + 1)] |}) /\
    (exists colony, run_simulation terrain_mesh rng seed_point (k + 1) = inr colony).
Proof.
  intros Hk Hr.
  destruct (simulate_total terrain_mesh rng seed_point k Hr) as (st & E).
  exists st. split; [exact E|]. split; [|split].
  - intros before d after Hg H. unfold sense. rewrite Hg.
    now apply sense_skips_ungrounded.
  - intros Hs.
    destruct (step_blocked terrain_mesh rng (k + 1) st Hr) as (c & Ec & Hc & Es);
      [eapply simulate_cursor; eauto | exact Hs |].
    exists c. repeat split; auto.
    + unfold choice in Ec. destruct (nth_error _ _); [|discriminate].
      now injection Ec as ->.
    + rewrite simulate_succ by exact Hk. now rewrite E.
  - destruct (simulate_total terrain_mesh rng seed_point (k + 1) Hr) as (st' & E').
    exists (modules st'). unfold run_simulation. now rewrite E'.
Qed.

Lemma blocked_is_not_an_error_witness :
  (0 <= 0)%Z /\ in_range first_pick /\
  exists st,
    simulate void_terrain first_pick origin 0 = inr st /\
    (forall before d after,
       growth_directions = before ++ d :: after ->
       ClosestMeshPoint void_terrain (Point3d.translate (current st) d) 1000.0 = None ->
       sense void_terrain (modules st) (current st)
       = fold_left (sense_direction void_terrain (modules st) (current st))
                   (before ++ after) []) /\
    (sense void_terrain (modules st) (current st) = [] ->
     exists c,
       nth_error (modules st) (first_pick (draws st) (length (modules st))) = Some c /\
       choice first_pick (draws st) (modules st) = inr c /\
       In c (modules st) /\
       simulate void_terrain first_pick origin (0 + 1) =
       inr {| modules := modules st; iterations := iterations st;
              current := c; draws := S (draws st);
              trace := trace st ++ [Blocked (0 + 1)] |}) /\
    (exists colony, run_simulation void_terrain first_pick origin (0 + 1) = inr colony).
Proof.
  split; [lia|]. split; [exact first_pick_in_range|].
  apply (blocked_is_not_an_error void_terrain first_pick origin 0).
  - lia.
  - exact first_pick_in_range.
Defined.

(** ** The colony only grows at its end *)




(** The colony after [j + n] iterations is the colony after [j] iterations
    with new modules at its end. *)
Lemma simulate_extends terrain_mesh rng seed_point :
  in_range rng ->
  forall (j : Z) (n : nat), (0 <= j)%Z ->
  exists stj stk ext ext_indices,
    simulate terrain_mesh rng seed_point j = inr stj /\
    simulate terrain_mesh rng seed_point (j + Z.of_nat n) = inr stk /\
    modules stk = modules stj ++ ext /\
    iterations stk = iterations stj ++ ext_indices.
Proof.
  intros Hr j n Hj.
  destruct (simulate_total terrain_mesh rng seed_point j Hr) as (stj & Ej).
  exists stj. induction n as [|n (stk & ext & exti & _ & Ek & Hm & Hi)].
  - exists stj, [], []. rewrite Z.add_0_r, !app_nil_r. auto.
  - replace (j + Z.of_nat (S n))%Z with (j + Z.of_nat n + 1)%Z by lia.
    rewrite simulate_succ by lia. rewrite Ek.
    destruct (step_total terrain_mesh rng (j + Z.of_nat n + 1) stk Hr) as (st' & E');
      [eapply simulate_cursor; eauto|].
    destruct (step_decision _ _ _ _ _ E') as [(_ & M & I & _) | (_ & M & I & _)].
    + exists st', ext, exti. rewrite M, I. auto.
    + exists st', (ext ++ [current st']), (exti ++ [(j + Z.of_nat n + 1)%Z]).
      rewrite M, I, Hm, Hi, <- !app_assoc. auto.
Qed.



(** ** Loops with the same body *)


(** ** The search directions *)

Lemma growth_directions_unfold :
  growth_directions =
  map (fun i : Z =>
         let angle := radians (IZR (i * 60)) in
         Vector3d.scale (Vector3d.mk (cos angle) (sin angle) 0) (step_size PARAMS))
      [0; 1; 2; 3; 4; 5]%Z.
Proof. reflexivity. Qed.

(** A vector of the plane [z = 0] at polar angle [a], scaled by [s]. *)
Lemma hex_length (a s : R) :
  0 <= s ->
  Vector3d.Length (Vector3d.scale (Vector3d.mk (cos a) (sin a) 0) s) = s.
Proof.
  intros Hs. unfold Vector3d.Length, Vector3d.scale. simpl.
  replace (cos a * s * (cos a * s) + sin a * s * (sin a * s) + 0 * s * (0 * s))
    with (s * s * (Rsqr (sin a) + Rsqr (cos a))) by (unfold Rsqr; ring).
  rewrite sin2_cos2, Rmult_1_r. now apply sqrt_square.
Qed.

Lemma step_size_value : step_size PARAMS = 3.5.
Proof. reflexivity. Qed.

Lemma growth_directions_planar :
  Forall (fun d => Vector3d.Z d = 0 /\ Vector3d.Length d = step_size PARAMS)
         growth_directions.
Proof.
  unfold growth_directions. apply Forall_forall. intros d Hd.
  apply in_map_iff in Hd. destruct Hd as (i & <- & _). split.
  - simpl. ring.
  - apply hex_length. simpl. lra.
Qed.

(** The angle that [VectorAngle] finds between two such vectors. *)
Lemma hex_angle (a b theta s : R) :
  0 < s -> 0 <= theta <= PI -> cos (b - a) = cos theta ->
  Vector3d.VectorAngle (Vector3d.scale (Vector3d.mk (cos a) (sin a) 0) s)
                       (Vector3d.scale (Vector3d.mk (cos b) (sin b) 0) s)
  = theta.
Proof.
  intros Hs Ht Hc. unfold Vector3d.VectorAngle.
  rewrite !Unitize_nonzero by (rewrite hex_length; lra).
  rewrite !hex_length by lra. cbn [andb].
  replace (Vector3d.dot _ _) with (cos (b - a)).
  - rewrite clamp_inside by apply COS_bound.
    rewrite Hc. now apply acos_cos.
  - rewrite cos_minus. unfold Vector3d.dot, Vector3d.scale. simpl. field. lra.
Qed.

Lemma radians_sixth (i : Z) : radians (IZR (i * 60)) = IZR i * (PI / 3).
Proof. unfold radians. rewrite mult_IZR. field. Qed.

(** Cosine and sine at the six angles. *)
Lemma hex_trig :
  (cos (0 * (PI / 3)) = 1 /\ sin (0 * (PI / 3)) = 0) /\
  (cos (1 * (PI / 3)) = 1 / 2 /\ sin (1 * (PI / 3)) = sqrt 3 / 2) /\
  (cos (2 * (PI / 3)) = -1 / 2 /\ sin (2 * (PI / 3)) = sqrt 3 / 2) /\
  (cos (3 * (PI / 3)) = -1 /\ sin (3 * (PI / 3)) = 0) /\
  (cos (4 * (PI / 3)) = - (1 / 2) /\ sin (4 * (PI / 3)) = - (sqrt 3 / 2)) /\
  (cos (5 * (PI / 3)) = - (-1 / 2) /\ sin (5 * (PI / 3)) = - (sqrt 3 / 2)).
Proof.
  replace (0 * (PI / 3)) with 0 by lra.
  replace (1 * (PI / 3)) with (PI / 3) by lra.
  replace (3 * (PI / 3)) with PI by lra.
  replace (4 * (PI / 3)) with (PI / 3 + PI) by lra.
  replace (5 * (PI / 3)) with (2 * (PI / 3) + PI) by lra.
  rewrite !neg_cos, !neg_sin.
  rewrite cos_0, sin_0, cos_PI3, sin_PI3, cos_2PI3, sin_2PI3, cos_PI, sin_PI.
  repeat split; reflexivity.
Qed.

(** C5. The directions are six vectors, always the same: in order, the
    vectors of length [step_size = 3.5] at the polar angles 0, 60, ..., 300
    degrees of the plane [z = 0].  The first is (3.5, 0, 0); each has its
    [Z] at 0 and its length equal to [step_size]; and [VectorAngle] from each
    to the next, and from the last back to the first, is 60 degrees. *)
Theorem hexagonal_directions :
  step_size PARAMS = 3.5 /\
  length growth_directions = 6%nat /\
  growth_directions =
    map (fun k : Z =>
           Vector3d.mk (step_size PARAMS * cos (IZR k * radians 60))
                       (step_size PARAMS * sin (IZR k * radians 60)) 0)
        [0; 1; 2; 3; 4; 5]%Z /\
  growth_directions =
    [ Vector3d.mk 3.5 0 0;
      Vector3d.mk 1.75 (1.75 * sqrt 3) 0;
      Vector3d.mk (-1.75) (1.75 * sqrt 3) 0;
      Vector3d.mk (-3.5) 0 0;
      Vector3d.mk (-1.75) (- (1.75 * sqrt 3)) 0;
      Vector3d.mk 1.75 (- (1.75 * sqrt 3)) 0 ] /\
  hd_error growth_directions = Some (Vector3d.mk 3.5 0 0) /\
  Forall (fun d => Vector3d.Z d = 0 /\ Vector3d.Length d = step_size PARAMS)
         growth_directions /\
  Forall (fun p => degrees (Vector3d.VectorAngle (fst p) (snd p)) = 60)
         (around growth_directions).
Proof.
  assert (Hpolar : growth_directions =
    map (fun k : Z =>
           Vector3d.mk (step_size PARAMS * cos (IZR k * (PI / 3)))
                       (step_size PARAMS * sin (IZR k * (PI / 3))) 0)
        [0; 1; 2; 3; 4; 5]%Z).
  { rewrite growth_directions_unfold. apply map_ext. intros i.
    cbv zeta. rewrite radians_sixth. unfold Vector3d.scale. simpl.
    f_equal; ring. }
  assert (Hclosed : growth_directions =
    [ Vector3d.mk 3.5 0 0;
      Vector3d.mk 1.75 (1.75 * sqrt 3) 0;
      Vector3d.mk (-1.75) (1.75 * sqrt 3) 0;
      Vector3d.mk (-3.5) 0 0;
      Vector3d.mk (-1.75) (- (1.75 * sqrt 3)) 0;
      Vector3d.mk 1.75 (- (1.75 * sqrt 3)) 0 ]).
  { rewrite Hpolar. cbn [map].
    destruct hex_trig as ((c0 & s0) & (c1 & s1) & (c2 & s2) & (c3 & s3)
                          & (c4 & s4) & (c5 & s5)).
    rewrite c0, s0, c1, s1, c2, s2, c3, s3, c4, s4, c5, s5.
    rewrite step_size_value.
    repeat (f_equal; try lra). }
  split; [reflexivity|]. split; [reflexivity|]. split.
  { rewrite Hpolar. apply map_ext. intros k.
    replace (radians 60) with (PI / 3) by (unfold radians; field). reflexivity. }
  split; [exact Hclosed|]. split; [now rewrite Hclosed|].
  split; [exact growth_directions_planar|].
  rewrite growth_directions_unfold.
  cbn [map around combine tl firstn app]. cbv zeta.
  rewrite !radians_sixth.
  assert (Hthird : 0 <= PI / 3 <= PI) by (pose proof PI_RGT_0; lra).
  assert (Hdeg : degrees (PI / 3) = 60) by (unfold degrees; field; apply PI_neq0).
  repeat constructor; cbn [fst snd];
    rewrite (hex_angle _ _ (PI / 3)); auto; try (simpl; lra).
  all: try (f_equal; lra).
  replace (0 * (PI / 3) - 5 * (PI / 3)) with (- (2 * (PI / 3) + PI)) by lra.
  rewrite cos_neg, neg_cos, cos_2PI3, cos_PI3. lra.
Qed.

(** ** Growing iterations *)

Lemma step_never_idle terrain_mesh rng i st st' :
  Forall (fun d => is_grew d || is_blocked d = true) (trace st) ->
  step terrain_mesh rng i st = inr st' ->
  Forall (fun d => is_grew d || is_blocked d = true) (trace st').
Proof.
  intros Ht H.
  destruct (step_decision _ _ _ _ _ H) as [(-> & _) | (-> & _)];
    apply Forall_app; split; auto; constructor; auto.
Qed.

(** C10. In every iteration [k + 1] of a run: the sun vector has length 1,
    the unitized growth vector to each accepted candidate has length 1, and
    their dot product, the score, is at least -1, above the sentinel -999.0;
    so when the accepted set is not empty [best_cand] is assigned, the guard
    [if best_cand] is taken,
    and the iteration appends exactly one module, an accepted candidate, with
    creation index [k + 1], and moves the cursor to it.  No iteration of the
    run ever falls through the guard. *)
Theorem growing_appends_one (terrain_mesh : Mesh) (rng : Random)
    (seed_point : Point3d.t) (k : Z) :
  (0 <= k)%Z -> in_range rng ->
  exists st,
    simulate terrain_mesh rng seed_point k = inr st /\
    Forall (fun d => is_grew d || is_blocked d = true) (trace st) /\
    Vector3d.Length (sun_vec PARAMS) = 1 /\
    Forall (fun c =>
              Vector3d.Length
                (snd (Vector3d.Unitize (Point3d.sub c (current st)))) = 1 /\
              -1 <= score (current st) c /\ score (current st) c > -999.0)
           (sense terrain_mesh (modules st) (current st)) /\
    (sense terrain_mesh (modules st) (current st) <> [] ->
     exists best_cand,
       fst (select (current st) (sense terrain_mesh (modules st) (current st)))
         = Some best_cand /\
       In best_cand (sense terrain_mesh (modules st) (current st)) /\
       simulate terrain_mesh rng seed_point (k + 1) =
       inr {| modules := modules st ++ [best_cand];
              iterations := iterations st ++ [(k + 1)%Z];
              current := best_cand; draws := draws st;
              trace := trace st ++ [Grew (k + 1)] |}).
Proof.
  intros Hk Hr.
  destruct (simulate_total terrain_mesh rng seed_point k Hr) as (st & E).
  exists st. split; [exact E|]. split; [|split; [|split]].
  - unfold simulate in E.
    eapply (for_each_invariant (step terrain_mesh rng)
              (fun s => Forall (fun d => is_grew d || is_blocked d = true) (trace s)));
      [| |exact E].
    + intros. eapply step_never_idle; eauto.
    + constructor.
  - apply Length_unit, sun_vec_unit.
  - apply Forall_forall. intros c Hc.
    pose proof (score_bounds (current st) c). split; [|split; lra].
    apply (accepted_growth_unit terrain_mesh st c); [|exact Hc].
    eapply simulate_cursor; eauto.
  - intros Hne.
    destruct (step_open terrain_mesh rng (k + 1) st Hne) as (b & Hb & Hin & Es).
    exists b. repeat split; auto.
    rewrite simulate_succ by exact Hk. now rewrite E.
Qed.

Lemma growing_appends_one_witness :
  (0 <= 0)%Z /\ in_range first_pick /\
  exists st,
    simulate flat_terrain first_pick origin 0 = inr st /\
    Forall (fun d => is_grew d || is_blocked d = true) (trace st) /\
    Vector3d.Length (sun_vec PARAMS) = 1 /\
    Forall (fun c =>
              Vector3d.Length
                (snd (Vector3d.Unitize (Point3d.sub c (current st)))) = 1 /\
              -1 <= score (current st) c /\ score (current st) c > -999.0)
           (sense flat_terrain (modules st) (current st)) /\
    (sense flat_terrain (modules st) (current st) <> [] ->
     exists best_cand,
       fst (select (current st) (sense flat_terrain (modules st) (current st)))
         = Some best_cand /\
       In best_cand (sense flat_terrain (modules st) (current st)) /\
       simulate flat_terrain first_pick origin (0 + 1) =
       inr {| modules := modules st ++ [best_cand];
              iterations := iterations st ++ [(0 + 1)%Z];
              current := best_cand; draws := draws st;
              trace := trace st ++ [Grew (0 + 1)] |}).
Proof.
  split; [lia|]. split; [exact first_pick_in_range|].
  apply (growing_appends_one flat_terrain first_pick origin 0).
  - lia.
  - exact first_pick_in_range.
Defined.

(** ** The first iteration on flat ground *)

Lemma flat_angle :
  degrees (Vector3d.VectorAngle Vector3d.ZAxis Vector3d.ZAxis) = 0.
Proof.
  assert (L : Vector3d.Length Vector3d.ZAxis = 1).
  { unfold Vector3d.Length, Vector3d.ZAxis. simpl.
    replace (0 * 0 + 0 * 0 + 1 * 1) with 1 by ring. apply sqrt_1. }
  unfold Vector3d.VectorAngle.
  rewrite (Unitize_nonzero Vector3d.ZAxis) by (rewrite L; lra).
  rewrite L. simpl.
  replace (Vector3d.dot _ _) with 1 by (unfold Vector3d.dot; simpl; field).
  rewrite clamp_inside by lra.
  rewrite acos_1. unfold degrees. field. apply PI_neq0.
Qed.

Lemma flat_seeded :
  seeded flat_terrain origin =
  {| modules := [origin]; iterations := [0%Z]; current := origin;
     draws := 0; trace := [] |}.
Proof.
  unfold seeded. cbn [ClosestMeshPoint flat_terrain].
  destruct (Rle_dec _ _) as [_ | N]; [reflexivity|].
  exfalso. apply N. simpl. rewrite Rabs_R0. lra.
Qed.

(** From the origin of the flat plane a direction of the plane [z = 0] and
    of length [step_size] is accepted. *)
Lemma flat_sense_direction candidates d :
  Vector3d.Z d = 0 -> Vector3d.Length d = step_size PARAMS ->
  sense_direction flat_terrain [origin] origin candidates d
  = candidates ++ [Point3d.mk (0 + Vector3d.X d) (0 + Vector3d.Y d) 0].
Proof.
  intros Hz Hl. unfold sense_direction.
  cbn [ClosestMeshPoint flat_terrain NormalAt Point3d.translate Point3d.Z
       Point3d.X Point3d.Y origin Point].
  destruct (Rle_dec _ _) as [_ | N].
  - rewrite flat_angle.
    replace (gtb 0 (max_slope_deg PARAMS)) with false
      by (symmetry; apply gtb_false; simpl; lra).
    cbn [collision].
    replace (Point3d.DistanceTo _ _) with (step_size PARAMS).
    + replace (ltb _ _) with false; [reflexivity|].
      symmetry. apply ltb_false. simpl. lra.
    + rewrite <- Hl. unfold Point3d.DistanceTo, Vector3d.Length, Point3d.sub.
      simpl. rewrite Hz. f_equal. ring.
  - exfalso. apply N. rewrite Hz, Rplus_0_l, Rabs_R0. lra.
Qed.

Lemma flat_sense_fold (ds : list Vector3d.t) :
  Forall (fun d => Vector3d.Z d = 0 /\ Vector3d.Length d = step_size PARAMS) ds ->
  forall candidates,
    fold_left (sense_direction flat_terrain [origin] origin) ds candidates
    = candidates
      ++ map (fun d => Point3d.mk (0 + Vector3d.X d) (0 + Vector3d.Y d) 0) ds.
Proof.
  induction 1 as [|d ds (Hz & Hl) _ IH]; intros acc; cbn [fold_left map].
  - now rewrite app_nil_r.
  - rewrite (flat_sense_direction acc d Hz Hl), IH, <- app_assoc. reflexivity.
Qed.

Lemma flat_sense_origin :
  sense flat_terrain [origin] origin
  = map (fun d => Point3d.mk (0 + Vector3d.X d) (0 + Vector3d.Y d) 0)
        growth_directions.
Proof.
  unfold sense. now rewrite (flat_sense_fold _ growth_directions_planar).
Qed.

(** On flat ground the first iteration grows: the colony that a budget of
    one returns has two modules, the second an accepted candidate. *)
Example flat_first_iteration_grows :
  exists best_cand,
    In best_cand (sense flat_terrain [origin] origin) /\
    run_simulation flat_terrain first_pick origin 1 = inr [origin; best_cand].
Proof.
  destruct (step_open flat_terrain first_pick 1 (seeded flat_terrain origin))
    as (b & _ & Hin & E).
  - rewrite flat_seeded. cbn [modules current]. rewrite flat_sense_origin.
    rewrite growth_directions_unfold. discriminate.
  - rewrite flat_seeded in Hin, E. cbn [modules current iterations draws trace] in Hin, E.
    exists b. split; [exact Hin|].
    unfold run_simulation, simulate.
    change (range 1 (1 + 1)) with [1%Z]. cbn [for_each].
    rewrite flat_seeded, E. reflexivity.
Qed.

(** ** The tie-break on a small input *)

Lemma sun_length : Vector3d.Length (Vector3d.mk 0 (-3) 0.5) = sqrt 9.25.
Proof. unfold Vector3d.Length. simpl. f_equal. lra. Qed.

Lemma sun_length_pos : 0 < sqrt 9.25.
Proof. apply sqrt_lt_R0. lra. Qed.

Lemma sun_vec_value :
  sun_vec PARAMS =
  Vector3d.mk (0 / sqrt 9.25) (-3 / sqrt 9.25) (0.5 / sqrt 9.25).
Proof.
  pose proof sun_length_pos.
  unfold PARAMS. cbn [sun_vec].
  rewrite Unitize_nonzero by (rewrite sun_length; lra).
  rewrite sun_length. reflexivity.
Qed.

(** Seen from the origin, a point on the y axis scores by its side alone. *)
Lemma score_on_y_axis (y : R) :
  y <> 0 ->
  score origin (Point3d.mk 0 y 0) = y / Rabs y * (-3 / sqrt 9.25).
Proof.
  intros Hy. pose proof sun_length_pos as HL.
  assert (Hlen : Vector3d.Length (Point3d.sub (Point3d.mk 0 y 0) origin) = Rabs y).
  { unfold Vector3d.Length, Point3d.sub. simpl.
    replace ((0 - 0) * (0 - 0) + (y - 0) * (y - 0) + (0 - 0) * (0 - 0))
      with (Rsqr y) by (unfold Rsqr; ring).
    apply sqrt_Rsqr_abs. }
  assert (Habs : Rabs y <> 0) by now apply Rabs_no_R0.
  unfold score. rewrite Unitize_nonzero by (rewrite Hlen; exact Habs).
  rewrite Hlen, sun_vec_value. unfold Vector3d.dot, Point3d.sub. simpl.
  field. split; [lra | exact Habs].
Qed.

(** Of two candidates that score alike, the one met first is kept: the
    candidates at [y = -3] and [y = -4] lie in the same direction from the
    origin, and the selector returns the first of them. *)
Example selector_tie_break :
  score origin (Point3d.mk 0 (-3) 0) = score origin (Point3d.mk 0 (-4) 0) /\
  fst (select origin on_y_axis) = Some (Point3d.mk 0 (-3) 0).
Proof.
  unfold on_y_axis.
  pose proof sun_length_pos as HL.
  assert (H1 : score origin (Point3d.mk 0 3 0) = - (3 / sqrt 9.25)).
  { rewrite score_on_y_axis by lra. rewrite Rabs_right by lra. field. lra. }
  assert (H2 : score origin (Point3d.mk 0 (-3) 0) = 3 / sqrt 9.25).
  { rewrite score_on_y_axis by lra. rewrite Rabs_left by lra. field. lra. }
  assert (H3 : score origin (Point3d.mk 0 (-4) 0) = 3 / sqrt 9.25).
  { rewrite score_on_y_axis by lra. rewrite Rabs_left by lra. field. lra. }
  assert (Hs : 0 < 3 / sqrt 9.25) by (apply Rdiv_lt_0_compat; lra).
  split; [now rewrite H2, H3|].
  unfold select. cbn [fold_left]. unfold select_step at 3. cbn [snd].
  replace (gtb _ _) with true
    by (symmetry; apply gtb_true; apply score_above_sentinel).
  unfold select_step at 2. cbn [snd]. rewrite H1, H2.
  replace (gtb _ _) with true by (symmetry; apply gtb_true; lra).
  unfold select_step. cbn [snd]. rewrite H3.
  replace (gtb _ _) with false by (symmetry; apply gtb_false; lra).
  reflexivity.
Qed.

(** * Further properties of the run *)

(** ** Sensing *)

Lemma sense_direction_append terrain_mesh modules current candidates d :
  sense_direction terrain_mesh modules current candidates d
  = candidates ++ sense_direction terrain_mesh modules current [] d.
Proof.
  unfold sense_direction.
  destruct (ClosestMeshPoint _ _ _) as [mp|]; [|now rewrite app_nil_r].
  destruct (gtb _ _); [now rewrite app_nil_r|].
  destruct (collision _ _); [now rewrite app_nil_r | reflexivity].
Qed.

Lemma sense_fold_flat_map terrain_mesh modules current ds :
  forall candidates,
    fold_left (sense_direction terrain_mesh modules current) ds candidates
    = candidates
      ++ flat_map (sense_direction terrain_mesh modules current []) ds.
Proof.
  induction ds as [|d ds IH]; intros acc; simpl; [now rewrite app_nil_r|].
  rewrite IH, (sense_direction_append _ _ _ acc d), <- app_assoc. reflexivity.
Qed.

Lemma sense_flat_map terrain_mesh modules current :
  sense terrain_mesh modules current
  = flat_map (sense_direction terrain_mesh modules current []) growth_directions.
Proof. unfold sense. now rewrite sense_fold_flat_map. Qed.

Lemma sense_direction_one terrain_mesh modules current d :
  (length (sense_direction terrain_mesh modules current [] d) <= 1)%nat.
Proof.
  destruct (sense_direction_cases terrain_mesh modules current [] d)
    as [-> | (mp & _ & ->)]; simpl; lia.
Qed.

Lemma flat_map_length_le {A B : Type} (f : A -> list B) (l : list A) :
  (forall a, (length (f a) <= 1)%nat) -> (length (flat_map f l) <= length l)%nat.
Proof.
  intros H. induction l as [|a l IH]; simpl; [lia|].
  rewrite length_app. specialize (H a). lia.
Qed.

Lemma accepted_sense_direction terrain_mesh modules current d mp :
  accepted terrain_mesh modules current d mp ->
  sense_direction terrain_mesh modules current [] d = [Point mp].
Proof.
  intros (Hq & Hs & Hc). unfold sense_direction. now rewrite Hq, Hs, Hc.
Qed.

(** The candidates of an iteration are the groundings of the accepted
    directions, no more and no less, at most one for each of the six
    directions and in the order of the directions. *)
Theorem sensing_characterised (terrain_mesh : Mesh) (modules : list Point3d.t)
    (current : Point3d.t) :
  sense terrain_mesh modules current
    = flat_map (sense_direction terrain_mesh modules current []) growth_directions /\
  (length (sense terrain_mesh modules current) <= 6)%nat /\
  (forall c,
     In c (sense terrain_mesh modules current) <->
     exists d mp, In d growth_directions /\ Point mp = c /\
                  accepted terrain_mesh modules current d mp).
Proof.
  split; [apply sense_flat_map|]. split.
  - rewrite sense_flat_map.
    etransitivity; [apply flat_map_length_le, sense_direction_one|].
    unfold growth_directions. rewrite length_map, range_length. simpl. lia.
  - intros c. split; [apply sense_In|].
    intros (d & mp & Hd & <- & Ha). rewrite sense_flat_map.
    apply in_flat_map. exists d. split; [exact Hd|].
    rewrite (accepted_sense_direction _ _ _ _ _ Ha). now left.
Qed.

(** ** Candidates as the colony grows *)

Lemma collision_grows modules extra cand_pt :
  collision modules cand_pt = true -> collision (modules ++ extra) cand_pt = true.
Proof.
  rewrite !collision_true. intros H. apply Exists_app. now left.
Qed.

Lemma sense_direction_grows terrain_mesh modules extra current d :
  sense_direction terrain_mesh (modules ++ extra) current [] d = [] \/
  sense_direction terrain_mesh (modules ++ extra) current [] d
  = sense_direction terrain_mesh modules current [] d.
Proof.
  unfold sense_direction.
  destruct (ClosestMeshPoint _ _ _) as [mp|]; [|now left].
  destruct (gtb _ _); [now left|].
  destruct (collision (modules ++ extra) _) eqn:E; [now left|].
  destruct (collision modules _) eqn:E'; [|now right].
  apply (collision_grows _ extra) in E'. congruence.
Qed.

Lemma sense_grows terrain_mesh modules extra current :
  incl (sense terrain_mesh (modules ++ extra) current)
       (sense terrain_mesh modules current) /\
  (length (sense terrain_mesh (modules ++ extra) current)
   <= length (sense terrain_mesh modules current))%nat.
Proof.
  rewrite !sense_flat_map.
  induction growth_directions as [|d ds (IHi & IHl)]; simpl.
  - split; [apply incl_refl | lia].
  - rewrite !length_app.
    destruct (sense_direction_grows terrain_mesh modules extra current d) as [-> | ->].
    + split; [now apply incl_appr | simpl; lia].
    + split; [apply incl_app_app; [apply incl_refl | exact IHi] | lia].
Qed.

(** As a run goes on, fewer candidates are accepted around any given point:
    for iterations [j <= k], what is accepted around [p] against the colony
    after [k] iterations was accepted around [p] against the colony after
    [j]; a point with no accepted candidate stays a dead end. *)
Theorem candidates_only_shrink (terrain_mesh : Mesh) (rng : Random)
    (seed_point : Point3d.t) (j k : Z) (p : Point3d.t) :
  (0 <= j <= k)%Z -> in_range rng ->
  exists stj stk,
    simulate terrain_mesh rng seed_point j = inr stj /\
    simulate terrain_mesh rng seed_point k = inr stk /\
    incl (sense terrain_mesh (modules stk) p) (sense terrain_mesh (modules stj) p) /\
    (length (sense terrain_mesh (modules stk) p)
     <= length (sense terrain_mesh (modules stj) p))%nat /\
    (sense terrain_mesh (modules stj) p = [] ->
     sense terrain_mesh (modules stk) p = []).
Proof.
  intros Hjk Hr.
  destruct (simulate_extends terrain_mesh rng seed_point Hr j (Z.to_nat (k - j)))
    as (stj & stk & ext & exti & Ej & Ek & Hm & _); [lia|].
  replace (j + Z.of_nat (Z.to_nat (k - j)))%Z with k in Ek by lia.
  exists stj, stk. rewrite Hm.
  destruct (sense_grows terrain_mesh (modules stj) ext p) as (Hi & Hl).
  repeat split; auto.
  intros E. rewrite E in Hl.
  destruct (sense terrain_mesh (modules stj ++ ext) p); [reflexivity | simpl in Hl; lia].
Qed.

Lemma candidates_only_shrink_witness :
  (0 <= 1 <= 3)%Z /\ in_range first_pick /\
  exists stj stk,
    simulate flat_terrain first_pick origin 1 = inr stj /\
    simulate flat_terrain first_pick origin 3 = inr stk /\
    incl (sense flat_terrain (modules stk) origin)
         (sense flat_terrain (modules stj) origin) /\
    (length (sense flat_terrain (modules stk) origin)
     <= length (sense flat_terrain (modules stj) origin))%nat /\
    (sense flat_terrain (modules stj) origin = [] ->
     sense flat_terrain (modules stk) origin = []).
Proof.
  split; [lia|]. split; [exact first_pick_in_range|].
  apply (candidates_only_shrink flat_terrain first_pick origin 1 3 origin).
  - lia.
  - exact first_pick_in_range.
Defined.

(** ** Budgets that leave no iteration *)

(** With a budget of zero or less the loop body never runs: the run returns
    the snapped seed alone, whatever the random source, and draws nothing
    from it. *)
Theorem no_budget_no_growth (terrain_mesh : Mesh) (rng : Random)
    (seed_point : Point3d.t) (max_modules : Z) :
  (max_modules <= 0)%Z ->
  simulate terrain_mesh rng seed_point max_modules
    = inr (seeded terrain_mesh seed_point) /\
  run_simulation terrain_mesh rng seed_point max_modules
    = inr [match ClosestMeshPoint terrain_mesh seed_point 1000000.0 with
           | Some mp => Point mp
           | None => seed_point
           end].
Proof.
  intros H.
  assert (E : simulate terrain_mesh rng seed_point max_modules
              = inr (seeded terrain_mesh seed_point)).
  { unfold simulate, range.
    replace (Z.to_nat (max_modules + 1 - 1)) with 0%nat by lia. reflexivity. }
  split; [exact E|]. unfold run_simulation. now rewrite E.
Qed.

Lemma no_budget_no_growth_witness :
  (-5 <= 0)%Z /\
  simulate flat_terrain (fun _ n => n) origin (-5)
    = inr (seeded flat_terrain origin) /\
  run_simulation flat_terrain (fun _ n => n) origin (-5)
    = inr [match ClosestMeshPoint flat_terrain origin 1000000.0 with
           | Some mp => Point mp
           | None => origin
           end].
Proof.
  split; [lia|].
  apply (no_budget_no_growth flat_terrain (fun _ n => n) origin (-5)). lia.
Defined.

(** ** How the colony hangs together *)

Lemma step_rooted terrain_mesh rng i st st' :
  rooted terrain_mesh (modules st) /\ cursor_in_colony st ->
  step terrain_mesh rng i st = inr st' ->
  rooted terrain_mesh (modules st') /\ cursor_in_colony st'.
Proof.
  intros (Hroot & Hcur) H. split; [|eapply step_cursor; eauto].
  destruct (step_decision _ _ _ _ _ H) as [(_ & -> & _) | (_ & -> & _ & Hin)];
    [exact Hroot|].
  apply sense_In in Hin. destruct Hin as (d & mp & Hd & <- & Ha).
  eapply rooted_grow; eauto.
Qed.

Lemma simulate_rooted terrain_mesh rng seed_point max_modules st :
  simulate terrain_mesh rng seed_point max_modules = inr st ->
  rooted terrain_mesh (modules st).
Proof.
  unfold simulate. intros H.
  eapply (for_each_invariant (step terrain_mesh rng)
            (fun s => rooted terrain_mesh (modules s) /\ cursor_in_colony s));
    [| |exact H].
  - intros i s s'. apply step_rooted.
  - split; [apply rooted_seed | apply seeded_cursor].
Qed.

(** The colony is a tree grown from the seed: every module after the first
    is the grounding of an accepted candidate, the point one search
    direction away from a module that was placed before it. *)
Theorem colony_rooted (terrain_mesh : Mesh) (rng : Random)
    (seed_point : Point3d.t) (max_modules : Z) :
  in_range rng ->
  exists colony,
    run_simulation terrain_mesh rng seed_point max_modules = inr colony /\
    rooted terrain_mesh colony.
Proof.
  intros Hr.
  destruct (simulate_total terrain_mesh rng seed_point max_modules Hr) as (st & E).
  exists (modules st). unfold run_simulation. rewrite E. split; [reflexivity|].
  eapply simulate_rooted; eauto.
Qed.

Lemma colony_rooted_witness :
  in_range first_pick /\
  exists colony,
    run_simulation flat_terrain first_pick origin 3 = inr colony /\
    rooted flat_terrain colony.
Proof.
  split; [exact first_pick_in_range|].
  apply (colony_rooted flat_terrain first_pick origin 3).
  exact first_pick_in_range.
Defined.

(** ** No two modules in one place *)

Lemma DistanceTo_self (p : Point3d.t) : Point3d.DistanceTo p p = 0.
Proof.
  unfold Point3d.DistanceTo, Vector3d.Length, Point3d.sub. simpl.
  replace (_ + _ + _) with 0 by ring. apply sqrt_0.
Qed.

Lemma spaced_NoDup (l : list Point3d.t) : ForallOrdPairs apart l -> NoDup l.
Proof.
  induction 1 as [|x l Hx _ IH]; constructor; [|exact IH].
  intros Hin. rewrite Forall_forall in Hx. specialize (Hx x Hin).
  unfold apart in Hx. rewrite DistanceTo_self in Hx. simpl in Hx. lra.
Qed.

(** The returned colony never holds the same position twice. *)
Theorem colony_without_repeats (terrain_mesh : Mesh) (rng : Random)
    (seed_point : Point3d.t) (max_modules : Z) :
  in_range rng ->
  exists colony,
    run_simulation terrain_mesh rng seed_point max_modules = inr colony /\
    NoDup colony.
Proof.
  intros Hr.
  destruct (simulate_total terrain_mesh rng seed_point max_modules Hr) as (st & E).
  exists (modules st). unfold run_simulation. rewrite E. split; [reflexivity|].
  apply spaced_NoDup. unfold simulate in E.
  eapply (for_each_invariant (step terrain_mesh rng) spaced); [| |exact E].
  - intros. eapply step_spaced; eauto.
  - unfold spaced, seeded. simpl. constructor; constructor.
Qed.

Lemma colony_without_repeats_witness :
  in_range first_pick /\
  exists colony,
    run_simulation flat_terrain first_pick origin 3 = inr colony /\
    NoDup colony.
Proof.
  split; [exact first_pick_in_range|].
  apply (colony_without_repeats flat_terrain first_pick origin 3).
  exact first_pick_in_range.
Defined.

(** ** The cursor *)

(** After any number of iterations the cursor is one of the modules of the
    colony; right after a growing iteration it is the last of them. *)
Theorem cursor_is_a_module (terrain_mesh : Mesh) (rng : Random)
    (seed_point : Point3d.t) (k : Z) :
  in_range rng ->
  exists st,
    simulate terrain_mesh rng seed_point k = inr st /\
    In (current st) (modules st) /\
    (forall log i, trace st = log ++ [Grew i] ->
       exists colony, modules st = colony ++ [current st]).
Proof.
  intros Hr.
  destruct (simulate_total terrain_mesh rng seed_point k Hr) as (st & E).
  exists st. split; [exact E|]. split; [eapply simulate_cursor; eauto|].
  unfold simulate in E.
  eapply (for_each_invariant (step terrain_mesh rng)
           (fun s => forall log i, trace s = log ++ [Grew i] ->
                       exists colony, modules s = colony ++ [current s]));
    [| |exact E].
  - intros i s s' _ Hs log i' Ht.
    destruct (step_decision _ _ _ _ _ Hs) as [(T & _) | (_ & M & _)].
    + rewrite T in Ht. apply app_inj_tail in Ht. destruct Ht as (_ & Ht). discriminate.
    + eauto.
  - simpl. intros log i Ht. destruct log; discriminate.
Qed.

Lemma cursor_is_a_module_witness :
  in_range first_pick /\
  exists st,
    simulate flat_terrain first_pick origin 3 = inr st /\
    In (current st) (modules st) /\
    (forall log i, trace st = log ++ [Grew i] ->
       exists colony, modules st = colony ++ [current st]).
Proof.
  split; [exact first_pick_in_range|].
  apply (cursor_is_a_module flat_terrain first_pick origin 3).
  exact first_pick_in_range.
Defined.

(** ** Dead ends *)

(** With picks in range, [random.choice] on a single module picks it. *)
Lemma choice_single (rng : Random) (k : nat) (s : Point3d.t) :
  in_range rng -> choice rng k [s] = inr s.
Proof.
  intros Hr. unfold choice. simpl.
  assert (H : (rng k 1%nat < 1)%nat) by (apply Hr; lia).
  destruct (rng k 1%nat); [reflexivity | lia].
Qed.

Lemma step_dead_end terrain_mesh rng i s st st' :
  in_range rng -> sense terrain_mesh [s] s = [] ->
  modules st = [s] /\ current st = s /\
    Forall (fun d => is_blocked d = true) (trace st) ->
  step terrain_mesh rng i st = inr st' ->
  modules st' = [s] /\ current st' = s /\
    Forall (fun d => is_blocked d = true) (trace st').
Proof.
  intros Hr Hs (Hm & Hc & Ht) H. unfold step in H.
  rewrite Hm, Hc, Hs, (choice_single rng _ s Hr) in H.
  injection H as <-. simpl. repeat split; auto.
  apply Forall_app. split; [exact Ht | now constructor].
Qed.

Lemma dead_end_run terrain_mesh rng seed_point max_modules :
  in_range rng ->
  sense terrain_mesh [current (seeded terrain_mesh seed_point)]
        (current (seeded terrain_mesh seed_point)) = [] ->
  exists st,
    simulate terrain_mesh rng seed_point max_modules = inr st /\
    modules st = [current (seeded terrain_mesh seed_point)] /\
    current st = current (seeded terrain_mesh seed_point) /\
    Forall (fun d => is_blocked d = true) (trace st).
Proof.
  intros Hr Hs.
  destruct (simulate_total terrain_mesh rng seed_point max_modules Hr) as (st & E).
  exists st. split; [exact E|]. unfold simulate in E.
  eapply (for_each_invariant (step terrain_mesh rng)
            (fun s => modules s = [current (seeded terrain_mesh seed_point)] /\
                      current s = current (seeded terrain_mesh seed_point) /\
                      Forall (fun d => is_blocked d = true) (trace s)));
    [| |exact E].
  - intros i s s' HP Hstep. eapply step_dead_end; eauto.
  - repeat split. constructor.
Qed.

(** If no candidate is accepted around the seed, none ever is: whatever the
    budget, every iteration is blocked, the cursor stays on the seed, and the
    run returns the seed alone. *)
Theorem dead_end_at_seed (terrain_mesh : Mesh) (rng : Random)
    (seed_point : Point3d.t) (max_modules : Z) :
  in_range rng ->
  sense terrain_mesh [current (seeded terrain_mesh seed_point)]
        (current (seeded terrain_mesh seed_point)) = [] ->
  run_simulation terrain_mesh rng seed_point max_modules
    = inr [current (seeded terrain_mesh seed_point)] /\
  exists st,
    simulate terrain_mesh rng seed_point max_modules = inr st /\
    current st = current (seeded terrain_mesh seed_point) /\
    Forall (fun d => is_blocked d = true) (trace st).
Proof.
  intros Hr Hs.
  destruct (dead_end_run terrain_mesh rng seed_point max_modules Hr Hs)
    as (st & E & Hm & Hc & Ht).
  split; [unfold run_simulation; now rewrite E, Hm|].
  exists st. auto.
Qed.

Lemma dead_end_at_seed_witness :
  in_range first_pick /\
  sense wall_terrain [current (seeded wall_terrain origin)]
        (current (seeded wall_terrain origin)) = [] /\
  run_simulation wall_terrain first_pick origin 147
    = inr [current (seeded wall_terrain origin)] /\
  exists st,
    simulate wall_terrain first_pick origin 147 = inr st /\
    current st = current (seeded wall_terrain origin) /\
    Forall (fun d => is_blocked d = true) (trace st).
Proof.
  split; [exact first_pick_in_range|]. split; [apply wall_sense|].
  apply (dead_end_at_seed wall_terrain first_pick origin 147).
  - exact first_pick_in_range.
  - apply wall_sense.
Defined.

Lemma steep_sense terrain_mesh modules current :
  steep_within_reach terrain_mesh -> sense terrain_mesh modules current = [].
Proof.
  intros Hsteep. rewrite sense_flat_map.
  induction growth_directions as [|d ds IH]; simpl; [reflexivity|].
  rewrite IH, app_nil_r. unfold sense_direction.
  destruct (ClosestMeshPoint _ _ _) as [mp|] eqn:E; [|reflexivity].
  apply Hsteep in E. apply gtb_true in E. now rewrite E.
Qed.

(** Where every point the mesh grounds within the sensing radius has a
    normal more than [max_slope_deg] from the up axis, or nothing is within
    that radius at all, the colony never grows: the run returns the seed
    alone, whatever the budget. *)
Theorem too_steep_everywhere (terrain_mesh : Mesh) (rng : Random)
    (seed_point : Point3d.t) (max_modules : Z) :
  in_range rng -> steep_within_reach terrain_mesh ->
  run_simulation terrain_mesh rng seed_point max_modules
    = inr [match ClosestMeshPoint terrain_mesh seed_point 1000000.0 with
           | Some mp => Point mp
           | None => seed_point
           end].
Proof.
  intros Hr Hsteep.
  destruct (dead_end_run terrain_mesh rng seed_point max_modules Hr)
    as (st & E & Hm & _); [now apply steep_sense|].
  unfold run_simulation. now rewrite E, Hm.
Qed.

Lemma wall_steep : steep_within_reach wall_terrain.
Proof.
  intros p mp _. cbn [NormalAt wall_terrain]. rewrite wall_angle. simpl. lra.
Defined.

Lemma too_steep_everywhere_witness :
  in_range first_pick /\ steep_within_reach wall_terrain /\
  run_simulation wall_terrain first_pick origin 147
    = inr [match ClosestMeshPoint wall_terrain origin 1000000.0 with
           | Some mp => Point mp
           | None => origin
           end].
Proof.
  split; [exact first_pick_in_range|]. split; [exact wall_steep|].
  apply (too_steep_everywhere wall_terrain first_pick origin 147).
  - exact first_pick_in_range.
  - exact wall_steep.
Defined.

(** ** What the run takes from the random source *)

Lemma step_draws terrain_mesh rng i st st' :
  step terrain_mesh rng i st = inr st' ->
  (trace st' = trace st ++ [Blocked i] /\ draws st' = S (draws st)) \/
  (trace st' = trace st ++ [Grew i] /\ draws st' = draws st).
Proof.
  intros H.
  destruct (sense terrain_mesh (modules st) (current st)) as [|c0 cs] eqn:Hs.
  - left. unfold step in H. rewrite Hs in H.
    destruct (choice _ _ _); [discriminate|]. injection H as <-. now split.
  - right.
    destruct (step_open terrain_mesh rng i st) as (b & _ & _ & E);
      [rewrite Hs; discriminate|].
    rewrite E in H. injection H as <-. now split.
Qed.

Lemma step_draws_counted terrain_mesh rng i st st' :
  draws st = length (filter is_blocked (trace st)) ->
  step terrain_mesh rng i st = inr st' ->
  draws st' = length (filter is_blocked (trace st')).
Proof.
  intros Hd H.
  destruct (step_draws _ _ _ _ _ H) as [(-> & ->) | (-> & ->)];
    rewrite filter_app, length_app; simpl; lia.
Qed.

(** [random.choice] is called once in each blocked iteration and nowhere
    else: with a budget [N >= 0], the number of picks taken from the random
    source is the number of blocked iterations, [N] less the number of
    modules grown. *)
Theorem draws_are_blocked_iterations (terrain_mesh : Mesh) (rng : Random)
    (seed_point : Point3d.t) (N : Z) :
  (0 <= N)%Z -> in_range rng ->
  exists st,
    simulate terrain_mesh rng seed_point N = inr st /\
    draws st = length (filter is_blocked (trace st)) /\
    (Z.of_nat (draws st) = N + 1 - Z.of_nat (length (modules st)))%Z /\
    (Z.of_nat (draws st) <= N)%Z.
Proof.
  intros HN Hr.
  destruct (simulate_total terrain_mesh rng seed_point N Hr) as (st & E).
  exists st. split; [exact E|].
  assert (Hd : draws st = length (filter is_blocked (trace st))).
  { unfold simulate in E.
    eapply (for_each_invariant (step terrain_mesh rng)
              (fun s => draws s = length (filter is_blocked (trace s))));
      [| |exact E].
    - intros i s s'. apply step_draws_counted.
    - reflexivity. }
  split; [exact Hd|].
  unfold simulate in E. apply for_each_decisions in E.
  destruct E as (ds & Ht & Hi & Hm & Hc). simpl in Ht, Hm. subst ds.
  assert (HL : length (trace st) = Z.to_nat N).
  { rewrite <- (length_map decision_index), Hi, range_length. lia. }
  split; lia.
Qed.

Lemma draws_are_blocked_iterations_witness :
  (0 <= 3)%Z /\ in_range first_pick /\
  exists st,
    simulate flat_terrain first_pick origin 3 = inr st /\
    draws st = length (filter is_blocked (trace st)) /\
    (Z.of_nat (draws st) = 3 + 1 - Z.of_nat (length (modules st)))%Z /\
    (Z.of_nat (draws st) <= 3)%Z.
Proof.
  split; [lia|]. split; [exact first_pick_in_range|].
  apply (draws_are_blocked_iterations flat_terrain first_pick origin 3).
  - lia.
  - exact first_pick_in_range.
Defined.

Lemma step_same_pick terrain_mesh r1 r2 i st :
  (forall n, r1 (draws st) n = r2 (draws st) n) ->
  step terrain_mesh r1 i st = step terrain_mesh r2 i st.
Proof.
  intros H. unfold step.
  destruct (sense _ _ _); [|reflexivity].
  unfold choice. now rewrite H.
Qed.

Lemma simulate_same_prefix terrain_mesh r1 r2 seed_point :
  forall n : nat,
    (forall k len, (k < n)%nat -> r1 k len = r2 k len) ->
    simulate terrain_mesh r1 seed_point (Z.of_nat n)
      = simulate terrain_mesh r2 seed_point (Z.of_nat n) /\
    (forall st, simulate terrain_mesh r1 seed_point (Z.of_nat n) = inr st ->
                (draws st <= n)%nat).
Proof.
  induction n as [|n IH]; intros Hsame.
  - split; [reflexivity|]. intros st H. cbn in H. injection H as <-. simpl. lia.
  - destruct IH as (E & Hd); [intros; apply Hsame; lia|].
    replace (Z.of_nat (S n)) with (Z.of_nat n + 1)%Z by lia.
    rewrite !simulate_succ by lia. rewrite <- E.
    destruct (simulate terrain_mesh r1 seed_point (Z.of_nat n)) as [e|st] eqn:E1.
    + split; [reflexivity | discriminate].
    + specialize (Hd st eq_refl). split.
      * apply step_same_pick. intros len. apply Hsame. lia.
      * intros st' H. destruct (step_draws _ _ _ _ _ H) as [(_ & ->) | (_ & ->)]; lia.
Qed.

(** A run with budget [N] looks at no more than the first [N] picks of the
    random source: two sources that agree on those give the same run, error
    or colony, however they go on. *)
Theorem later_picks_do_not_matter (terrain_mesh : Mesh) (r1 r2 : Random)
    (seed_point : Point3d.t) (N : Z) :
  (forall k len, (Z.of_nat k < N)%Z -> r1 k len = r2 k len) ->
  simulate terrain_mesh r1 seed_point N = simulate terrain_mesh r2 seed_point N /\
  run_simulation terrain_mesh r1 seed_point N
    = run_simulation terrain_mesh r2 seed_point N.
Proof.
  intros Hsame.
  assert (E : simulate terrain_mesh r1 seed_point N
              = simulate terrain_mesh r2 seed_point N).
  { destruct (Z.le_gt_cases 0 N) as [HN | HN].
    - rewrite <- (Z2Nat.id N HN).
      apply simulate_same_prefix. intros k len Hk. apply Hsame. lia.
    - unfold simulate, range.
      replace (Z.to_nat (N + 1 - 1)) with 0%nat by lia. reflexivity. }
  split; [exact E|]. unfold run_simulation. now rewrite E.
Qed.

Lemma later_picks_do_not_matter_witness :
  (forall k len, (Z.of_nat k < 3)%Z ->
     first_pick k len = (fun k len => if (k <? 3)%nat then 0 else len)%nat k len) /\
  simulate flat_terrain first_pick origin 3
    = simulate flat_terrain (fun k len => if (k <? 3)%nat then 0 else len)%nat origin 3 /\
  run_simulation flat_terrain first_pick origin 3
    = run_simulation flat_terrain
        (fun k len => if (k <? 3)%nat then 0 else len)%nat origin 3.
Proof.
  assert (H : forall k len, (Z.of_nat k < 3)%Z ->
     first_pick k len = (fun k len => if (k <? 3)%nat then 0 else len)%nat k len).
  { intros k len Hk. unfold first_pick.
    destruct (Nat.ltb_spec k 3); [reflexivity | lia]. }
  split; [exact H|].
  exact (later_picks_do_not_matter flat_terrain first_pick
           (fun k len => if (k <? 3)%nat then 0 else len)%nat origin 3 H).
Defined.

(** ** The entry point *)

(** With the toggle on, the output [A] is a colony, never an error, of at
    least one and at most 148 modules, the snapped seed first; with the
    toggle off there is no run and no output. *)
Theorem entry_point_output (terrain_mesh : Mesh) (rng : Random)
    (seed_point : Point3d.t) :
  in_range rng ->
  entry_point false terrain_mesh rng seed_point = None /\
  exists grown,
    entry_point true terrain_mesh rng seed_point
      = Some (inr (match ClosestMeshPoint terrain_mesh seed_point 1000000.0 with
                   | Some mp => Point mp
                   | None => seed_point
                   end :: grown)) /\
    (length grown <= 147)%nat.
Proof.
  intros Hr. split; [reflexivity|].
  destruct (simulate_head terrain_mesh rng seed_point 147 Hr)
    as (st & grown & E & Hm).
  exists grown. unfold entry_point, run_simulation. rewrite E, Hm.
  split; [reflexivity|].
  unfold simulate in E. apply for_each_decisions in E.
  destruct E as (ds & Ht & Hi & Hl & Hc).
  rewrite Hm in Hl. simpl in Hl.
  assert (HL : length ds = 147%nat).
  { rewrite <- (length_map decision_index), Hi, range_length. reflexivity. }
  lia.
Qed.

Lemma entry_point_output_witness :
  in_range first_pick /\
  entry_point false flat_terrain first_pick origin = None /\
  exists grown,
    entry_point true flat_terrain first_pick origin
      = Some (inr (match ClosestMeshPoint flat_terrain origin 1000000.0 with
                   | Some mp => Point mp
                   | None => origin
                   end :: grown)) /\
    (length grown <= 147)%nat.
Proof.
  split; [exact first_pick_in_range|].
  apply (entry_point_output flat_terrain first_pick origin).
  exact first_pick_in_range.
Defined.

(** ** Arm lengths *)

Lemma rooted_linked terrain_mesh (Q : Point3d.t -> Point3d.t -> Prop) :
  (forall colony parent d mp,
     In d growth_directions -> accepted terrain_mesh colony parent d mp ->
     Q parent (Point mp)) ->
  forall colony, rooted terrain_mesh colony -> linked Q colony.
Proof.
  intros HQ. induction 1 as [s | colony parent d mp _ IH Hp Hd Ha].
  - constructor.
  - eapply linked_grow; eauto.
Qed.

Lemma DistanceTo_translate (p : Point3d.t) (d : Vector3d.t) :
  Point3d.DistanceTo p (Point3d.translate p d) = Vector3d.Length d.
Proof.
  unfold Point3d.DistanceTo, Vector3d.Length, Point3d.sub, Point3d.translate.
  simpl. f_equal. ring.
Qed.

Lemma dot_le_lengths (u v : Vector3d.t) :
  Vector3d.dot u v <= Vector3d.Length u * Vector3d.Length v.
Proof.
  pose proof (dot_sqr_le u v) as H.
  rewrite <- !Length_sqr in H.
  assert (Hu : 0 <= Vector3d.Length u) by apply sqrt_pos.
  assert (Hv : 0 <= Vector3d.Length v) by apply sqrt_pos.
  generalize dependent (Vector3d.Length v).
  generalize dependent (Vector3d.Length u).
  generalize (Vector3d.dot u v).
  intros x a Ha b H Hb.
  assert (Hab : 0 <= a * b) by now apply Rmult_le_pos.
  apply Rnot_lt_le. intros Hlt.
  assert (Hx : 0 < x + a * b) by lra.
  assert (Hy : 0 < x - a * b) by lra.
  pose proof (Rmult_lt_0_compat _ _ Hx Hy). nra.
Qed.

(** The triangle inequality for [DistanceTo]. *)
Lemma DistanceTo_triangle (p q r : Point3d.t) :
  Point3d.DistanceTo p r <= Point3d.DistanceTo p q + Point3d.DistanceTo q r.
Proof.
  unfold Point3d.DistanceTo.
  set (u := Point3d.sub q p). set (v := Point3d.sub r q). set (w := Point3d.sub r p).
  pose proof (dot_le_lengths u v) as Hd.
  pose proof (Length_sqr u) as Hu. pose proof (Length_sqr v) as Hv.
  pose proof (Length_sqr w) as Hw.
  assert (Hsum : norm2 w = norm2 u + norm2 v + 2 * Vector3d.dot u v).
  { unfold norm2, Vector3d.dot, u, v, w, Point3d.sub. simpl. ring. }
  assert (H0u : 0 <= Vector3d.Length u) by apply sqrt_pos.
  assert (H0v : 0 <= Vector3d.Length v) by apply sqrt_pos.
  assert (H0w : 0 <= Vector3d.Length w) by apply sqrt_pos.
  nra.
Qed.

(** On a mesh whose answers lie within the search radius, every module after
    the first is within [step_size + 1000] of a module placed before it: one
    arm to the test point, then the sensing radius of 1000 down to the
    ground.  Nothing in the run holds it to the arm length itself. *)
Theorem arm_length_bound (terrain_mesh : Mesh) (rng : Random)
    (seed_point : Point3d.t) (max_modules : Z) :
  in_range rng -> honours_radius terrain_mesh ->
  exists colony,
    run_simulation terrain_mesh rng seed_point max_modules = inr colony /\
    linked (fun parent m =>
              Point3d.DistanceTo parent m <= step_size PARAMS + 1000.0) colony.
Proof.
  intros Hr Hrad.
  destruct (simulate_total terrain_mesh rng seed_point max_modules Hr) as (st & E).
  exists (modules st). unfold run_simulation. rewrite E. split; [reflexivity|].
  apply (rooted_linked terrain_mesh); [|eapply simulate_rooted; eauto].
  intros colony parent d mp Hd (Hq & _).
  pose proof (DistanceTo_triangle parent (Point3d.translate parent d) (Point mp)) as T.
  rewrite DistanceTo_translate in T.
  apply Hrad in Hq.
  pose proof growth_directions_planar as Hp. rewrite Forall_forall in Hp.
  destruct (Hp d Hd) as (_ & ->) in T. lra.
Qed.

Lemma flat_honours_radius : honours_radius flat_terrain.
Proof.
  intros p radius mp. cbn [ClosestMeshPoint flat_terrain].
  destruct (Rle_dec _ _) as [Hle | _]; [|discriminate].
  intros H. injection H as <-.
  unfold Point3d.DistanceTo, Vector3d.Length, Point3d.sub. simpl.
  replace (_ + _ + _) with (Rsqr (Point3d.Z p)) by (unfold Rsqr; ring).
  now rewrite sqrt_Rsqr_abs.
Qed.

Lemma arm_length_bound_witness :
  in_range first_pick /\ honours_radius flat_terrain /\
  exists colony,
    run_simulation flat_terrain first_pick origin 3 = inr colony /\
    linked (fun parent m =>
              Point3d.DistanceTo parent m <= step_size PARAMS + 1000.0) colony.
Proof.
  split; [exact first_pick_in_range|]. split; [exact flat_honours_radius|].
  apply (arm_length_bound flat_terrain first_pick origin 3).
  - exact first_pick_in_range.
  - exact flat_honours_radius.
Defined.

(** ** Level ground *)

Lemma plane_closest (h : R) (p : Point3d.t) (radius : R) (mp : MeshPoint) :
  ClosestMeshPoint (plane_terrain h) p radius = Some mp ->
  Point mp = Point3d.mk (Point3d.X p) (Point3d.Y p) h.
Proof.
  cbn [ClosestMeshPoint plane_terrain].
  destruct (Rle_dec _ _); [|discriminate]. intros H. now injection H as <-.
Qed.

Lemma plane_reach (h : R) (p : Point3d.t) (radius : R) :
  Rabs (Point3d.Z p - h) <= radius ->
  ClosestMeshPoint (plane_terrain h) p radius
  = Some {| Point := Point3d.mk (Point3d.X p) (Point3d.Y p) h; FaceIndex := 0 |}.
Proof.
  intros H. cbn [ClosestMeshPoint plane_terrain].
  destruct (Rle_dec _ _); [reflexivity | contradiction].
Qed.

(** On the plane, one direction away from a point of the plane: the
    candidate is in the plane, exactly the length of the direction away. *)
Lemma plane_accepted (h : R) colony parent d mp :
  Point3d.Z parent = h -> In d growth_directions ->
  accepted (plane_terrain h) colony parent d mp ->
  Point3d.Z (Point mp) = h /\
  Point3d.DistanceTo parent (Point mp) = step_size PARAMS.
Proof.
  intros Hz Hd (Hq & _). apply plane_closest in Hq. rewrite Hq.
  split; [reflexivity|].
  pose proof growth_directions_planar as Hp. rewrite Forall_forall in Hp.
  destruct (Hp d Hd) as (Hdz & <-).
  unfold Point3d.DistanceTo, Vector3d.Length, Point3d.sub, Point3d.translate.
  simpl. rewrite Hz, Hdz. f_equal. ring.
Qed.

Lemma rooted_nonempty terrain_mesh colony :
  rooted terrain_mesh colony -> colony <> [].
Proof. destruct 1; [discriminate | now destruct colony]. Qed.

Lemma plane_rooted (h : R) colony :
  rooted (plane_terrain h) colony ->
  (forall s, hd_error colony = Some s -> Point3d.Z s = h) ->
  Forall (fun m => Point3d.Z m = h) colony /\
  linked (fun parent m => Point3d.DistanceTo parent m = step_size PARAMS) colony.
Proof.
  induction 1 as [s | colony parent d mp Hroot IH Hp Hd Ha]; intros Hhd.
  - split; [|constructor]. constructor; [now apply Hhd | constructor].
  - destruct IH as (Hall & Hlink).
    { intros s Hs. apply Hhd.
      pose proof (rooted_nonempty _ _ Hroot).
      destruct colony; [congruence | exact Hs]. }
    rewrite Forall_forall in Hall.
    destruct (plane_accepted h colony parent d mp (Hall parent Hp) Hd Ha) as (Hz & Hdist).
    split.
    + apply Forall_app. split; [now apply Forall_forall|].
      constructor; [exact Hz | constructor].
    + eapply linked_grow; eauto.
Qed.

Lemma growth_directions_inhabited : exists d, In d growth_directions.
Proof. rewrite growth_directions_unfold. eexists. left. reflexivity. Qed.

Lemma accepted_in_sense terrain_mesh modules current d mp :
  In d growth_directions -> accepted terrain_mesh modules current d mp ->
  In (Point mp) (sense terrain_mesh modules current).
Proof.
  intros Hd Ha. rewrite sense_flat_map. apply in_flat_map.
  exists d. split; [exact Hd|].
  rewrite (accepted_sense_direction _ _ _ _ _ Ha). now left.
Qed.

(** Around a lone module on the plane there is room. *)
Lemma plane_sense_open (h : R) (s : Point3d.t) :
  Point3d.Z s = h -> sense (plane_terrain h) [s] s <> [].
Proof.
  intros Hz. destruct growth_directions_inhabited as (d & Hd).
  pose proof growth_directions_planar as Hp. rewrite Forall_forall in Hp.
  destruct (Hp d Hd) as (Hdz & Hdl).
  assert (Hq : ClosestMeshPoint (plane_terrain h) (Point3d.translate s d) 1000.0
               = Some {| Point := Point3d.mk (Point3d.X s + Vector3d.X d)
                                             (Point3d.Y s + Vector3d.Y d) h;
                         FaceIndex := 0 |}).
  { apply plane_reach. simpl. rewrite Hz, Hdz.
    replace (h + 0 - h) with 0 by ring. rewrite Rabs_R0. lra. }
  assert (Ha : accepted (plane_terrain h) [s] s d
                 {| Point := Point3d.mk (Point3d.X s + Vector3d.X d)
                                        (Point3d.Y s + Vector3d.Y d) h;
                    FaceIndex := 0 |}).
  { split; [exact Hq|]. split.
    - cbn [NormalAt plane_terrain]. rewrite flat_angle.
      apply gtb_false. simpl. lra.
    - apply collision_false. constructor; [|constructor].
      rewrite DistanceTo_sym.
      replace (Point3d.DistanceTo s _) with (step_size PARAMS).
      + simpl. lra.
      + rewrite <- Hdl.
        unfold Point3d.DistanceTo, Vector3d.Length, Point3d.sub. simpl.
        rewrite Hz, Hdz. f_equal. ring. }
  intros E. pose proof (accepted_in_sense _ _ _ _ _ Hd Ha) as Hin.
  rewrite E in Hin. exact Hin.
Qed.

(** On a horizontal plane, from a seed within reach of it: every module of
    the returned colony lies in the plane, the first straight above or below
    the seed point; every module after the first is exactly [step_size]
    away from a module placed before it; and with a budget of at least one
    the colony does grow. *)
Theorem level_ground_lattice (h : R) (rng : Random) (seed_point : Point3d.t)
    (max_modules : Z) :
  in_range rng -> Rabs (Point3d.Z seed_point - h) <= 1000000.0 ->
  exists grown,
    run_simulation (plane_terrain h) rng seed_point max_modules
      = inr (Point3d.mk (Point3d.X seed_point) (Point3d.Y seed_point) h :: grown) /\
    Forall (fun m => Point3d.Z m = h) grown /\
    linked (fun parent m => Point3d.DistanceTo parent m = step_size PARAMS)
           (Point3d.mk (Point3d.X seed_point) (Point3d.Y seed_point) h :: grown) /\
    ((1 <= max_modules)%Z -> grown <> []).
Proof.
  intros Hr Hreach.
  set (s := Point3d.mk (Point3d.X seed_point) (Point3d.Y seed_point) h).
  assert (Hseed : seeded (plane_terrain h) seed_point =
                  {| modules := [s]; iterations := [0%Z]; current := s;
                     draws := 0; trace := [] |}).
  { unfold seeded. now rewrite (plane_reach h seed_point _ Hreach). }
  destruct (simulate_head (plane_terrain h) rng seed_point max_modules Hr)
    as (st & grown & E & Hm).
  rewrite Hseed in Hm. cbn [current] in Hm.
  exists grown. unfold run_simulation. rewrite E, Hm. split; [reflexivity|].
  destruct (plane_rooted h (modules st)) as (Hall & Hlink).
  { eapply simulate_rooted; eauto. }
  { rewrite Hm. intros x Hx. injection Hx as <-. reflexivity. }
  rewrite Hm in Hall, Hlink. split; [now inversion Hall|]. split; [exact Hlink|].
  intros Hone Hnil.
  (* the first iteration grows, and the colony never shrinks *)
  destruct (simulate_extends (plane_terrain h) rng seed_point Hr 1
              (Z.to_nat (max_modules - 1)))
    as (st1 & stk & ext & exti & E1 & Ek & Hext & _); [lia|].
  replace (1 + Z.of_nat (Z.to_nat (max_modules - 1)))%Z with max_modules in Ek by lia.
  rewrite E in Ek. injection Ek as <-.
  change 1%Z with (0 + 1)%Z in E1. rewrite simulate_succ in E1 by lia.
  change (simulate (plane_terrain h) rng seed_point 0)
    with (inr (A := exn) (seeded (plane_terrain h) seed_point)) in E1.
  rewrite Hseed in E1.
  destruct (step_open (plane_terrain h) rng (0 + 1)
              {| modules := [s]; iterations := [0%Z]; current := s;
                 draws := 0; trace := [] |}) as (b & _ & _ & Es).
  { cbn [modules current]. now apply plane_sense_open. }
  rewrite Es in E1. injection E1 as <-. cbn [modules] in Hext.
  rewrite Hm, Hnil in Hext. destruct ext; discriminate.
Qed.

Lemma level_ground_lattice_witness :
  in_range first_pick /\
  Rabs (Point3d.Z (Point3d.mk 5 7 9) - 2) <= 1000000.0 /\
  exists grown,
    run_simulation (plane_terrain 2) first_pick (Point3d.mk 5 7 9) 3
      = inr (Point3d.mk (Point3d.X (Point3d.mk 5 7 9))
                        (Point3d.Y (Point3d.mk 5 7 9)) 2 :: grown) /\
    Forall (fun m => Point3d.Z m = 2) grown /\
    linked (fun parent m => Point3d.DistanceTo parent m = step_size PARAMS)
           (Point3d.mk (Point3d.X (Point3d.mk 5 7 9))
                       (Point3d.Y (Point3d.mk 5 7 9)) 2 :: grown) /\
    ((1 <= 3)%Z -> grown <> []).
Proof.
  assert (H : Rabs (Point3d.Z (Point3d.mk 5 7 9) - 2) <= 1000000.0).
  { simpl. rewrite Rabs_right; lra. }
  split; [exact first_pick_in_range|]. split; [exact H|].
  exact (level_ground_lattice 2 first_pick (Point3d.mk 5 7 9) 3
           first_pick_in_range H).
Defined.

(** ** The score in closed form *)

Lemma norm2_zero (v : Vector3d.t) :
  norm2 v = 0 -> Vector3d.X v = 0 /\ Vector3d.Y v = 0 /\ Vector3d.Z v = 0.
Proof. unfold norm2. intros H. repeat split; nra. Qed.

(** The score of a candidate is the drop in [Y] weighted by 3 plus the rise
    in [Z] weighted by 0.5, divided by the distance from the cursor and by
    the length [sqrt 9.25] of the sun vector as configured; a candidate at
    the cursor itself, whose growth vector cannot be unitized, scores 0. *)
Theorem score_closed_form (current cand : Point3d.t) :
  score current cand =
  if Req_dec_T (Point3d.DistanceTo current cand) 0 then 0
  else (-3 * (Point3d.Y cand - Point3d.Y current)
        + 0.5 * (Point3d.Z cand - Point3d.Z current))
       / (sqrt 9.25 * Point3d.DistanceTo current cand).
Proof.
  pose proof sun_length_pos as HL.
  unfold Point3d.DistanceTo, score.
  destruct (Req_dec_T (Vector3d.Length (Point3d.sub cand current)) 0) as [E | NE].
  - rewrite (Unitize_zero _ E). cbn [snd].
    assert (H0 : norm2 (Point3d.sub cand current) = 0)
      by (rewrite <- Length_sqr, E; ring).
    apply norm2_zero in H0. destruct H0 as (Hx & Hy & Hz).
    unfold Vector3d.dot. rewrite Hx, Hy, Hz. ring.
  - rewrite (Unitize_nonzero _ NE), sun_vec_value.
    unfold Vector3d.dot, Point3d.sub. simpl. field. split; [exact NE | lra].
Qed.

(** ** The first step on level ground *)

Lemma growth_directions_closed :
  growth_directions =
    [ Vector3d.mk 3.5 0 0;
      Vector3d.mk 1.75 (1.75 * sqrt 3) 0;
      Vector3d.mk (-1.75) (1.75 * sqrt 3) 0;
      Vector3d.mk (-3.5) 0 0;
      Vector3d.mk (-1.75) (- (1.75 * sqrt 3)) 0;
      Vector3d.mk 1.75 (- (1.75 * sqrt 3)) 0 ].
Proof.
  rewrite growth_directions_unfold. cbn [map]. cbv zeta.
  rewrite !radians_sixth.
  destruct hex_trig as ((c0 & s0) & (c1 & s1) & (c2 & s2) & (c3 & s3)
                        & (c4 & s4) & (c5 & s5)).
  rewrite c0, s0, c1, s1, c2, s2, c3, s3, c4, s4, c5, s5.
  unfold Vector3d.scale. simpl.
  repeat (f_equal; try lra).
Qed.

Lemma plane_lone_accepted (h : R) (s : Point3d.t) (d : Vector3d.t) :
  Point3d.Z s = h -> In d growth_directions ->
  accepted (plane_terrain h) [s] s d
    {| Point := Point3d.mk (Point3d.X s + Vector3d.X d)
                           (Point3d.Y s + Vector3d.Y d) h;
       FaceIndex := 0 |}.
Proof.
  intros Hz Hd.
  pose proof growth_directions_planar as Hp. rewrite Forall_forall in Hp.
  destruct (Hp d Hd) as (Hdz & Hdl).
  split; [|split].
  - apply plane_reach. simpl. rewrite Hz, Hdz.
    replace (h + 0 - h) with 0 by ring. rewrite Rabs_R0. lra.
  - cbn [NormalAt plane_terrain]. rewrite flat_angle.
    apply gtb_false. simpl. lra.
  - apply collision_false. constructor; [|constructor].
    rewrite DistanceTo_sym.
    replace (Point3d.DistanceTo s _) with (step_size PARAMS); [simpl; lra|].
    rewrite <- Hdl.
    unfold Point3d.DistanceTo, Vector3d.Length, Point3d.sub. simpl.
    rewrite Hz, Hdz. f_equal. ring.
Qed.

Lemma flat_map_singletons {A B : Type} (f : A -> list B) (g : A -> B) (l : list A) :
  (forall a, In a l -> f a = [g a]) -> flat_map f l = map g l.
Proof.
  induction l as [|a l IH]; intros H; simpl; [reflexivity|].
  rewrite (H a) by now left. rewrite IH by (intros; apply H; now right).
  reflexivity.
Qed.

(** Around a lone module on the plane all six candidates are accepted. *)
Lemma plane_sense_lone (h : R) (s : Point3d.t) :
  Point3d.Z s = h ->
  sense (plane_terrain h) [s] s
  = map (fun d => Point3d.mk (Point3d.X s + Vector3d.X d)
                             (Point3d.Y s + Vector3d.Y d) h)
        growth_directions.
Proof.
  intros Hz. rewrite sense_flat_map. apply flat_map_singletons.
  intros d Hd.
  now rewrite (accepted_sense_direction _ _ _ _ _ (plane_lone_accepted h s d Hz Hd)).
Qed.

Lemma plane_lone_score (h : R) (s : Point3d.t) (d : Vector3d.t) :
  Point3d.Z s = h -> In d growth_directions ->
  score s (Point3d.mk (Point3d.X s + Vector3d.X d) (Point3d.Y s + Vector3d.Y d) h)
  = -3 * Vector3d.Y d / (sqrt 9.25 * 3.5).
Proof.
  intros Hz Hd. pose proof sun_length_pos as HL.
  destruct (plane_accepted h [s] s d _ Hz Hd (plane_lone_accepted h s d Hz Hd))
    as (_ & Hdist). cbn [Point] in Hdist. unfold Point3d.DistanceTo in Hdist.
  unfold score.
  rewrite Unitize_nonzero by (rewrite Hdist; simpl; lra).
  rewrite Hdist, sun_vec_value.
  unfold Vector3d.dot, Point3d.sub. simpl. rewrite Hz. field. lra.
Qed.

(** The best of the six candidates around a lone module on the plane is one
    of the two nearest to the negative Y direction. *)
Lemma plane_lone_best (h : R) (s best : Point3d.t) :
  Point3d.Z s = h ->
  fst (select s (sense (plane_terrain h) [s] s)) = Some best ->
  Point3d.Y best = Point3d.Y s - 1.75 * sqrt 3 /\
  Point3d.Z best = h /\
  (Point3d.X best = Point3d.X s - 1.75 \/ Point3d.X best = Point3d.X s + 1.75).
Proof.
  intros Hz Hbest.
  set (g := fun d => Point3d.mk (Point3d.X s + Vector3d.X d)
                                (Point3d.Y s + Vector3d.Y d) h).
  assert (Hs : sense (plane_terrain h) [s] s = map g growth_directions)
    by now apply plane_sense_lone.
  assert (Hne : sense (plane_terrain h) [s] s <> [])
    by now apply plane_sense_open.
  destruct (select_first_greatest s _ Hne) as (k & b & E & _ & Hmax & _).
  rewrite E in Hbest. cbn [fst] in Hbest. injection Hbest as ->.
  assert (Hin : In best (map g growth_directions))
    by (rewrite <- Hs; apply (select_In s); now rewrite E).
  apply in_map_iff in Hin. destruct Hin as (db & <- & Hdb).
  (* the candidate at 240 degrees is among those the best must match *)
  set (d4 := Vector3d.mk (-1.75) (- (1.75 * sqrt 3)) 0).
  assert (Hd4 : In d4 growth_directions)
    by (rewrite growth_directions_closed; simpl; auto 6).
  assert (Hle : score s (g d4) <= score s (g db)).
  { apply Hmax. rewrite Hs. now apply in_map. }
  unfold g in Hle.
  rewrite (plane_lone_score h s d4 Hz Hd4), (plane_lone_score h s db Hz Hdb) in Hle.
  pose proof sun_length_pos as HL.
  assert (HD : 0 < / (sqrt 9.25 * 3.5)) by (apply Rinv_0_lt_compat; nra).
  unfold Rdiv in Hle. apply Rmult_le_reg_r in Hle; [|exact HD].
  cbn [Vector3d.Y d4] in Hle.
  assert (H3 : 0 < sqrt 3) by (apply sqrt_lt_R0; lra).
  rewrite growth_directions_closed in Hdb. simpl in Hdb.
  unfold g. simpl.
  destruct Hdb as [<- | [<- | [<- | [<- | [<- | [<- | []]]]]]]; simpl in Hle |- *;
    try (exfalso; lra); repeat split; lra.
Qed.

(** On a horizontal plane, from a seed within reach of it and with a budget
    of at least one, the module placed first after the seed is in the plane,
    [1.75 * sqrt 3] to the negative Y side of the seed and 1.75 off it in X:
    the directions at 240 and 300 degrees face the sun best, and alike. *)
Theorem level_ground_first_step (h : R) (rng : Random) (seed_point : Point3d.t)
    (max_modules : Z) :
  in_range rng -> Rabs (Point3d.Z seed_point - h) <= 1000000.0 ->
  (1 <= max_modules)%Z ->
  exists first rest,
    run_simulation (plane_terrain h) rng seed_point max_modules
      = inr (Point3d.mk (Point3d.X seed_point) (Point3d.Y seed_point) h
             :: first :: rest) /\
    Point3d.Y first = Point3d.Y seed_point - 1.75 * sqrt 3 /\
    Point3d.Z first = h /\
    (Point3d.X first = Point3d.X seed_point - 1.75 \/
     Point3d.X first = Point3d.X seed_point + 1.75).
Proof.
  intros Hr Hreach Hone.
  set (s := Point3d.mk (Point3d.X seed_point) (Point3d.Y seed_point) h).
  assert (Hseed : seeded (plane_terrain h) seed_point =
                  {| modules := [s]; iterations := [0%Z]; current := s;
                     draws := 0; trace := [] |}).
  { unfold seeded. now rewrite (plane_reach h seed_point _ Hreach). }
  destruct (simulate_extends (plane_terrain h) rng seed_point Hr 1
              (Z.to_nat (max_modules - 1)))
    as (st1 & stk & ext & exti & E1 & Ek & Hext & _); [lia|].
  replace (1 + Z.of_nat (Z.to_nat (max_modules - 1)))%Z with max_modules in Ek by lia.
  change 1%Z with (0 + 1)%Z in E1. rewrite simulate_succ in E1 by lia.
  change (simulate (plane_terrain h) rng seed_point 0)
    with (inr (A := exn) (seeded (plane_terrain h) seed_point)) in E1.
  rewrite Hseed in E1.
  destruct (step_open (plane_terrain h) rng (0 + 1)
              {| modules := [s]; iterations := [0%Z]; current := s;
                 draws := 0; trace := [] |}) as (b & Hb & _ & Es).
  { cbn [modules current]. now apply plane_sense_open. }
  cbn [modules current] in Hb.
  rewrite Es in E1. injection E1 as <-. cbn [modules] in Hext.
  exists b, ext. unfold run_simulation. rewrite Ek, Hext.
  split; [reflexivity|].
  exact (plane_lone_best h s b eq_refl Hb).
Qed.

Lemma level_ground_first_step_witness :
  in_range first_pick /\
  Rabs (Point3d.Z (Point3d.mk 5 7 9) - 2) <= 1000000.0 /\
  (1 <= 3)%Z /\
  exists first rest,
    run_simulation (plane_terrain 2) first_pick (Point3d.mk 5 7 9) 3
      = inr (Point3d.mk (Point3d.X (Point3d.mk 5 7 9))
                        (Point3d.Y (Point3d.mk 5 7 9)) 2
             :: first :: rest) /\
    Point3d.Y first = Point3d.Y (Point3d.mk 5 7 9) - 1.75 * sqrt 3 /\
    Point3d.Z first = 2 /\
    (Point3d.X first = Point3d.X (Point3d.mk 5 7 9) - 1.75 \/
     Point3d.X first = Point3d.X (Point3d.mk 5 7 9) + 1.75).
Proof.
  assert (H : Rabs (Point3d.Z (Point3d.mk 5 7 9) - 2) <= 1000000.0).
  { simpl. rewrite Rabs_right; lra. }
  split; [exact first_pick_in_range|]. split; [exact H|]. split; [lia|].
  apply (level_ground_first_step 2 first_pick (Point3d.mk 5 7 9) 3
           first_pick_in_range H).
  lia.
Defined.

(** ** Determinism *)







(** The second mesh and the second source are other than the first. *)
Lemma flat_terrain_elsewhere_differs :
  ClosestMeshPoint flat_terrain origin 5 <> ClosestMeshPoint flat_terrain_elsewhere origin 5 /\
  NormalAt flat_terrain {| Point := origin; FaceIndex := 1 |}
    <> NormalAt flat_terrain_elsewhere {| Point := origin; FaceIndex := 1 |} /\
  first_pick 3%nat 1%nat <> first_pick_thrice 3%nat 1%nat.
Proof.
  split; [|split].
  - cbn [ClosestMeshPoint flat_terrain flat_terrain_elsewhere].
    destruct (Req_dec_T 5 1000.0) as [E | _]; [lra|].
    destruct (Req_dec_T 5 1000000.0) as [E | _]; [lra|].
    destruct (Rle_dec _ _) as [_ | N]; [discriminate|].
    exfalso. apply N. simpl. rewrite Rabs_R0. lra.
  - cbn. unfold Vector3d.ZAxis. intros H. injection H as H0 H1. lra.
  - cbn. discriminate.
Qed.

